(** * The Eigen engine of the Conv operator (caffe2/operators/conv_op_eigen.cc)

    A shallow embedding of [EigenConvOp<T>::RunOnDeviceWithOrderNCHW] and
    [EigenConvOp<T>::RunOnDeviceWithOrderNHWC], at the level of the flat
    buffers and linear indices that the source manipulates.

    Conventions of the embedding:
    - dimensions and indices ([int], [TIndex], Eigen's [Index]) are
      mathematical integers [Z]; every product of dimensions is assumed
      to fit its C++ type (signed overflow is undefined behaviour in the
      source, and is not modelled);
    - every division of the source has a non-negative dividend and a
      positive divisor, where C++ truncation and [Z.div] agree;
    - the element type [T] of the template is a type with a zero, an
      addition and a multiplication (class [Scalar]); the algebraic laws
      that hold of exact arithmetic are a separate class [ScalarLaws],
      assumed only by the theorems that rearrange a sum;
    - a buffer is a [list T]; a read outside the buffer is [None] and
      surfaces as the failure [OutOfBounds];
    - Eigen is a third-party library: its expressions are modelled by
      their coefficient evaluators, for row-major tensors and
      column-major arrays as the source declares them;
    - [ConvPoolOpBase::SetOutputSize] belongs to this repository but not
      to the file at hand: it is modelled from the specification. *)

From stdpp Require Import base numbers option list.
From Stdlib Require Import ZArith Lia.

Local Open Scope Z_scope.

(** ** The element type *)

Class Scalar (T : Type) := {
  zero : T;
  add : T → T → T;
  mul : T → T → T
}.

Class ScalarLaws (T : Type) `{Scalar T} : Prop := {
  scalar_add_assoc : ∀ a b c : T, add a (add b c) = add (add a b) c;
  scalar_add_comm : ∀ a b : T, add a b = add b a;
  scalar_add_zero_l : ∀ a : T, add zero a = a
}.

#[export] Instance Z_Scalar : Scalar Z :=
  {| zero := 0; add := Z.add; mul := Z.mul |}.

(** ** Tensors, blobs and the operator's members *)

Record Tensor (T : Type) := mkTensor {
  dims : list Z;
  data : list T
}.
Arguments mkTensor {T} _ _.
Arguments dims {T} _.
Arguments data {T} _.

(** The product of a list of dimensions. *)
Definition numel (ds : list Z) : Z := foldr Z.mul 1 ds.

(** [Tensor::ndim()] and [Tensor::size()]. *)
Definition ndim {T} (t : Tensor T) : Z := Z.of_nat (length (dims t)).
Definition Tensor_size {T} (t : Tensor T) : Z := numel (dims t).

(** The invariant that the [Tensor] class maintains: non-negative
    dimensions, and a buffer of exactly [size()] elements. *)
Definition Tensor_wf {T} (t : Tensor T) : Prop :=
  Forall (λ d, 0 ≤ d) (dims t) ∧ Z.of_nat (length (data t)) = Tensor_size t.

(** The blobs of one invocation: [Input(INPUT)], [Input(FILTER)],
    [Input(BIAS)] and [Output(0)].  They are four distinct tensors. *)
Record Blobs (T : Type) := mkBlobs {
  INPUT : Tensor T;
  FILTER : Tensor T;
  BIAS : Tensor T;
  OUTPUT : Tensor T
}.
Arguments mkBlobs {T} _ _ _ _.
Arguments INPUT {T} _.
Arguments FILTER {T} _.
Arguments BIAS {T} _.
Arguments OUTPUT {T} _.

(** The members of [ConvPoolOpBase] that the two entry points read. *)
Record ConvPoolOpBase := mkConvPoolOpBase {
  kernel_h_ : Z;
  kernel_w_ : Z;
  stride_h_ : Z;
  stride_w_ : Z;
  dilation_h_ : Z;
  dilation_w_ : Z;
  pad_t_ : Z;
  pad_l_ : Z;
  pad_b_ : Z;
  pad_r_ : Z
}.

Inductive StorageOrder := NCHW | NHWC.

(** ** Failures and the operator monad *)

(** The shape condition whose enforcement failed. *)
Inductive ShapeCheck :=
  | InputRank          (* X.dim32(i) with i beyond the rank of X *)
  | FilterRank         (* 4 == filter.ndim() *)
  | FilterChannels     (* filter's channel dimension == C *)
  | FilterKernelH      (* filter's height dimension == kernel_h_ *)
  | FilterKernelW      (* filter's width dimension == kernel_w_ *)
  | BiasRank           (* 1 == bias.ndim() *)
  | BiasLength.        (* bias.dim32(0) == M *)

Inductive Failure :=
  | InvalidShape (check : ShapeCheck)
  | InconsistentOutputSize
  | DivideByZero       (* Y->size() / M with M = 0 *)
  | OutOfBounds.       (* an access outside a buffer *)

(** A computation of the operator: it reads and writes the blobs, and
    either throws or returns.  The blobs as they are when a failure is
    thrown are part of the result. *)
Definition Op (T A : Type) : Type := Blobs T → Blobs T * (Failure + A).

Definition ret {T A} (a : A) : Op T A := λ ws, (ws, inr a).

Definition throw {T A} (f : Failure) : Op T A := λ ws, (ws, inl f).

Definition bind {T A B} (c : Op T A) (k : A → Op T B) : Op T B :=
  λ ws, match c ws with
        | (ws', inl f) => (ws', inl f)
        | (ws', inr a) => k a ws'
        end.

Notation "'let*' x ':=' c 'in' k" := (bind c (λ x, k))
  (at level 10, x name, c at level 100, k at level 200).
Notation "c ';;;' k" := (bind c (λ _, k))
  (at level 100, k at level 200, right associativity).

(** [Input(tag)]: a read-only reference to an input blob. *)
Definition Input {T} (tag : Blobs T → Tensor T) : Op T (Tensor T) :=
  λ ws, (ws, inr (tag ws)).

(** [Output(0)], read through the pointer [Y]. *)
Definition Output {T} : Op T (Tensor T) := λ ws, (ws, inr (OUTPUT ws)).

(** A store through [Y->mutable_data<T>()]: the leading elements of the
    buffer are overwritten; nothing but the output blob changes. *)
Definition store {T} (vals : list T) : Op T unit :=
  λ ws,
    let Y := OUTPUT ws in
    if (length vals <=? length (data Y))%nat
    then (mkBlobs (INPUT ws) (FILTER ws) (BIAS ws)
            (mkTensor (dims Y) (vals ++ drop (length vals) (data Y))),
          inr tt)
    else (ws, inl OutOfBounds).

(** [CAFFE_ENFORCE(cond)]. *)
Definition CAFFE_ENFORCE {T} (cond : bool) (check : ShapeCheck) : Op T unit :=
  if cond then ret tt else throw (InvalidShape check).

(** [t.dim32(i)]; the index is checked against the rank, and [f] is the
    failure raised when it is beyond. *)
Definition dim32 {T} (t : Tensor T) (i : nat) (f : Failure) : Op T Z :=
  match dims t !! i with
  | Some d => ret d
  | None => throw f
  end.

(** Integer division as the source writes it, [a / b]. *)
Definition divide {T} (a b : Z) : Op T Z :=
  if b =? 0 then throw DivideByZero else ret (a / b).

(** The result of evaluating an Eigen expression into a buffer. *)
Definition evaluated {T A} (r : option A) : Op T A :=
  match r with
  | Some a => ret a
  | None => throw OutOfBounds
  end.

(** ** Eigen expressions

    Eigen evaluates an expression coefficient by coefficient: an
    evaluator has dimensions and a function from the linear index of a
    coefficient to its value.  All tensors of the source are
    [Eigen::RowMajor]. *)

Section Eigen.
Context {T : Type} {ScalarT : Scalar T}.

(** A read of [buf[index]]. *)
Definition load (buf : list T) (index : Z) : option T :=
  if 0 <=? index then buf !! Z.to_nat index else None.

Record TensorEvaluator := mkEvaluator {
  dimensions : list Z;
  coeff : Z → option T
}.

(** [Eigen::TensorMap<Eigen::Tensor<T, 4, Eigen::RowMajor>>(ptr, dims...)]:
    the buffer seen as a tensor. *)
Definition TensorMap (buf : list T) (ds : list Z) : TensorEvaluator :=
  {| dimensions := ds; coeff := load buf |}.

(** Row-major strides of a list of dimensions: the last one is 1. *)
Fixpoint strides (ds : list Z) : list Z :=
  match ds with
  | [] => []
  | _ :: ds' => numel ds' :: strides ds'
  end.

(** [srcCoeff] of the shuffling evaluator: the linear index of the
    source coefficient, peeling one output coordinate per step. *)
Fixpoint srcCoeff (outputStrides inputStrides : list Z)
    (index inputIndex : Z) : Z :=
  match outputStrides, inputStrides with
  | [_], si :: _ => inputIndex + index * si
  | so :: outs, si :: ins =>
      let idx := index / so in
      srcCoeff outs ins (index - idx * so) (inputIndex + idx * si)
  | _, _ => inputIndex
  end.

(** [e.shuffle(shfl)]: dimension [i] of the result is dimension
    [shfl[i]] of the argument. *)
Definition shuffle (shfl : list nat) (e : TensorEvaluator) : TensorEvaluator :=
  let m_dimensions := (λ s, nth s (dimensions e) 0) <$> shfl in
  let m_unshuffledInputStrides := strides (dimensions e) in
  let m_inputStrides := (λ s, nth s m_unshuffledInputStrides 0) <$> shfl in
  let m_outputStrides := strides m_dimensions in
  {| dimensions := m_dimensions;
     coeff := λ index,
       coeff e (srcCoeff m_outputStrides m_inputStrides index 0) |}.

(** [e.reshape(ds)]: the same coefficients in the same linear order. *)
Definition reshape (ds : list Z) (e : TensorEvaluator) : TensorEvaluator :=
  {| dimensions := ds; coeff := coeff e |}.

(** The rounding-up quotient [numext::ceil(a / static_cast<float>(b))]. *)
Definition ceil_div (a b : Z) : Z := - ((- a) / b).

(** Eigen's image-patch evaluator ([TensorImagePatchOp] of the
    third-party tensor module [unsupported/Eigen/CXX11/Tensor]), for a
    row-major argument of rank 4 and explicit paddings, with Eigen's
    parameter names.  The result has rank 5: (batch, patches,
    patch_cols, patch_rows, depth).  The depth is the last dimension of
    the argument; Eigen's "rows" run along the last dimension but one
    (the width of a channel-last image) and its "cols" along the one
    before (the height), which is what the comment of the source at the
    call sites says.  A coefficient whose row or column falls outside of
    the (inflated) input is the padding value, and is not read from the
    argument; this is the gather that section 4.3 of the specification
    describes. *)
Definition extract_image_patches
    (patch_rows patch_cols row_stride col_stride
     in_row_stride in_col_stride row_inflate_stride col_inflate_stride
     padding_top padding_bottom padding_left padding_right : Z)
    (padding_value : T) (e : TensorEvaluator) : TensorEvaluator :=
  let m_inputDepth := nth 3 (dimensions e) 0 in
  let m_inputRows := nth 2 (dimensions e) 0 in
  let m_inputCols := nth 1 (dimensions e) 0 in
  let m_input_rows_eff := (m_inputRows - 1) * row_inflate_stride + 1 in
  let m_input_cols_eff := (m_inputCols - 1) * col_inflate_stride + 1 in
  let m_patch_rows_eff := patch_rows + (patch_rows - 1) * (in_row_stride - 1) in
  let m_patch_cols_eff := patch_cols + (patch_cols - 1) * (in_col_stride - 1) in
  let m_outputRows :=
    ceil_div (m_input_rows_eff + padding_top + padding_bottom
              - m_patch_rows_eff + 1) row_stride in
  let m_outputCols :=
    ceil_div (m_input_cols_eff + padding_left + padding_right
              - m_patch_cols_eff + 1) col_stride in
  let m_dimensions :=
    [nth 0 (dimensions e) 0; m_outputRows * m_outputCols;
     patch_cols; patch_rows; m_inputDepth] in
  let m_colStride := patch_rows in
  let m_patchStride := m_colStride * patch_cols * m_inputDepth in
  let m_otherStride := m_patchStride * (m_outputRows * m_outputCols) in
  let m_rowInputStride := m_inputDepth in
  let m_colInputStride := m_inputDepth * m_inputRows in
  let m_patchInputStride := m_inputDepth * m_inputRows * m_inputCols in
  {| dimensions := m_dimensions;
     coeff := λ index,
       let patchIndex := index / m_patchStride in
       let patchOffset := (index - patchIndex * m_patchStride) / m_inputDepth in
       let otherIndex := index / m_otherStride in
       let patch2DIndex := (index - otherIndex * m_otherStride) / m_patchStride in
       let colIndex := patch2DIndex / m_outputRows in
       let colOffset := patchOffset / m_colStride in
       let inputCol :=
         colIndex * col_stride + colOffset * in_col_stride - padding_left in
       let origInputCol :=
         if col_inflate_stride =? 1 then inputCol
         else if 0 <=? inputCol then inputCol / col_inflate_stride else 0 in
       if (inputCol <? 0) || (m_input_cols_eff <=? inputCol)
          || (negb (col_inflate_stride =? 1)
              && negb (inputCol =? origInputCol * col_inflate_stride))
       then Some padding_value
       else
         let rowIndex := patch2DIndex - colIndex * m_outputRows in
         let rowOffset := patchOffset - colOffset * m_colStride in
         let inputRow :=
           rowIndex * row_stride + rowOffset * in_row_stride - padding_top in
         let origInputRow :=
           if row_inflate_stride =? 1 then inputRow
           else if 0 <=? inputRow then inputRow / row_inflate_stride else 0 in
         if (inputRow <? 0) || (m_input_rows_eff <=? inputRow)
            || (negb (row_inflate_stride =? 1)
                && negb (inputRow =? origInputRow * row_inflate_stride))
         then Some padding_value
         else
           let depth := index - (index / m_inputDepth) * m_inputDepth in
           let inputIndex :=
             depth + origInputRow * m_rowInputStride
             + origInputCol * m_colInputStride
             + otherIndex * m_patchInputStride in
           coeff e inputIndex |}.

(** The sum of the contraction: the products are accumulated from
    [zero] in increasing order of the contracted index. *)
Fixpoint accumulate (n : nat) (term : Z → option T) : option T :=
  match n with
  | O => Some zero
  | S n' =>
      acc ← accumulate n' term;
      v ← term (Z.of_nat n');
      Some (add acc v)
  end.

(** [lhs.contract(rhs, {IndexPair(1, 0)})] on two row-major matrices:
    the matrix product. *)
Definition contract (lhs rhs : TensorEvaluator) : TensorEvaluator :=
  let i_size := nth 0 (dimensions lhs) 0 in
  let k_size := nth 1 (dimensions lhs) 0 in
  let j_size := nth 1 (dimensions rhs) 0 in
  {| dimensions := [i_size; j_size];
     coeff := λ index,
       let i := index / j_size in
       let j := index - i * j_size in
       accumulate (Z.to_nat k_size)
         (λ k, a ← coeff lhs (i * k_size + k);
               b ← coeff rhs (k * j_size + j);
               Some (mul a b)) |}.

(** The evaluation of an expression: one coefficient per linear index
    below the number of elements of its dimensions. *)
Definition evalTensor (e : TensorEvaluator) : option (list T) :=
  mapM (λ k : nat, coeff e (Z.of_nat k))
       (seq 0 (Z.to_nat (numel (dimensions e)))).

(** Caffe2's [EigenArrayMap] and [ConstEigenArrayMap]: a buffer seen as
    a column-major two-dimensional array. *)
Record ArrayEvaluator := mkArray {
  rows : Z;
  cols : Z;
  coeffRC : Z → Z → option T
}.

Definition EigenArrayMap (buf : list T) (r c : Z) : ArrayEvaluator :=
  {| rows := r; cols := c; coeffRC := λ i j, load buf (i + j * r) |}.

Definition transpose (a : ArrayEvaluator) : ArrayEvaluator :=
  {| rows := cols a; cols := rows a; coeffRC := λ i j, coeffRC a j i |}.

(** [ConstEigenVectorArrayMap]: a buffer seen as a column vector. *)
Definition EigenVectorArrayMap (buf : list T) (n : Z) : Z → option T :=
  load buf.

(** [a.colwise() + v]: the vector is added to every column. *)
Definition colwise_add (a : ArrayEvaluator) (v : Z → option T) : ArrayEvaluator :=
  {| rows := rows a; cols := cols a;
     coeffRC := λ i j, x ← coeffRC a i j; b ← v i; Some (add x b) |}.

(** The evaluation of an array expression, in column-major order. *)
Definition evalArray (a : ArrayEvaluator) : option (list T) :=
  mapM (λ k : nat,
          let j := Z.of_nat k / rows a in
          coeffRC a (Z.of_nat k - j * rows a) j)
       (seq 0 (Z.to_nat (rows a * cols a))).

End Eigen.

Arguments TensorEvaluator T : clear implicits.
Arguments ArrayEvaluator T : clear implicits.

(** ** The operator *)

Section EigenConvOp.
Context {T : Type} {ScalarT : Scalar T}.

(** A materialised [Eigen::Tensor<T, 4, Eigen::RowMajor>]: the
    expression is evaluated into a fresh buffer, which is then read as a
    tensor of the dimensions of the expression. *)
Definition materialize (e : TensorEvaluator T) : option (TensorEvaluator T) :=
  buf ← evalTensor e; Some (TensorMap buf (dimensions e)).

(** Modelled from the spec: the output size of one spatial axis, as the
    shape calculator yields it (sections 4.3 and 8):
    [floor((in + pad_before + pad_after - dilation*(kernel-1) - 1) / stride) + 1]. *)
Definition output_dim (in_size kernel stride dilation pad_before pad_after : Z) : Z :=
  (in_size + pad_before + pad_after - dilation * (kernel - 1) - 1) / stride + 1.

(** The shape of the output for a storage order. *)
Definition output_shape (order : StorageOrder) (N M output_height output_width : Z)
    : list Z :=
  match order with
  | NCHW => [N; M; output_height; output_width]
  | NHWC => [N; output_height; output_width; M]
  end.

(** Modelled from the spec: [ConvPoolOpBase::SetOutputSize]
    (caffe2/operators/conv_pool_op_base.h) is not under src/.  By
    sections 3 and 7 of the spec the output buffer is allocated by the
    caller, the core never resizes it, and a buffer whose dimensions are
    not the ones that the convolution arithmetic yields is the failure
    [InconsistentOutputSize].  The spatial dimensions of the input are
    read according to the storage order of the entry point. *)
Definition SetOutputSize (order : StorageOrder) (op : ConvPoolOpBase)
    (input : Tensor T) (output_channel : Z) : Op T unit :=
  let* N := dim32 input 0 (InvalidShape InputRank) in
  let* H := dim32 input (match order with NCHW => 2 | NHWC => 1 end)
              (InvalidShape InputRank) in
  let* W := dim32 input (match order with NCHW => 3 | NHWC => 2 end)
              (InvalidShape InputRank) in
  let output_height :=
    output_dim H (kernel_h_ op) (stride_h_ op) (dilation_h_ op)
      (pad_t_ op) (pad_b_ op) in
  let output_width :=
    output_dim W (kernel_w_ op) (stride_w_ op) (dilation_w_ op)
      (pad_l_ op) (pad_r_ op) in
  let* Y := Output in
  if decide (dims Y = output_shape order N output_channel output_height output_width)
  then ret tt
  else throw InconsistentOutputSize.

(** Lines 78-91 and 170-183, the same text in both entry points: the
    patches of [X_tensor].  Eigen's rows are the width and its columns
    the height, hence the order of the arguments; the padding value is
    the literal [0]. *)
Definition image_patches (op : ConvPoolOpBase) (X_tensor : TensorEvaluator T)
    : TensorEvaluator T :=
  extract_image_patches
    (kernel_w_ op) (kernel_h_ op)
    (stride_w_ op) (stride_h_ op)
    (dilation_w_ op) (dilation_h_ op)
    1 1
    (pad_l_ op) (pad_r_ op) (pad_t_ op) (pad_b_ op)
    zero X_tensor.

(** Lines 77-94 and 169-186: the patches, reshaped to a matrix,
    contracted with the reshaped filter, reshaped to the dimensions of
    [Y_tensor]. *)
Definition convolution (op : ConvPoolOpBase) (X_tensor filter_tensor : TensorEvaluator T)
    (pre_contract_dims kernel_dims Y_tensor_dimensions : list Z) : TensorEvaluator T :=
  reshape Y_tensor_dimensions
    (contract
       (reshape pre_contract_dims (image_patches op X_tensor))
       (reshape kernel_dims filter_tensor)).

(** Lines 129-133: [temp_filter(M, kernel_h_ * kernel_w_ * C)], assigned
    the transpose of the filter seen as a column-major
    [(kernel_h_ * kernel_w_ * C) x M] array; the result is the buffer
    [temp_filter.data()]. *)
Definition temp_filter (op : ConvPoolOpBase) (filter : Tensor T) (C M : Z)
    : option (list T) :=
  evalArray
    (transpose (EigenArrayMap (data filter)
                  (kernel_h_ op * kernel_w_ op * C) M)).

Definition RunOnDeviceWithOrderNHWC (op : ConvPoolOpBase) : Op T bool :=
  let* X := Input INPUT in
  let* filter := Input FILTER in
  let* bias := Input BIAS in
  let* N := dim32 X 0 (InvalidShape InputRank) in
  let* H := dim32 X 1 (InvalidShape InputRank) in
  let* W := dim32 X 2 (InvalidShape InputRank) in
  let* C := dim32 X 3 (InvalidShape InputRank) in
  CAFFE_ENFORCE (4 =? ndim filter) FilterRank ;;;
  let* M := dim32 filter 0 (InvalidShape FilterRank) in
  let* filter_1 := dim32 filter 1 (InvalidShape FilterRank) in
  CAFFE_ENFORCE (filter_1 =? kernel_h_ op) FilterKernelH ;;;
  let* filter_2 := dim32 filter 2 (InvalidShape FilterRank) in
  CAFFE_ENFORCE (filter_2 =? kernel_w_ op) FilterKernelW ;;;
  let* filter_3 := dim32 filter 3 (InvalidShape FilterRank) in
  CAFFE_ENFORCE (filter_3 =? C) FilterChannels ;;;
  CAFFE_ENFORCE (1 =? ndim bias) BiasRank ;;;
  let* bias_0 := dim32 bias 0 (InvalidShape BiasRank) in
  CAFFE_ENFORCE (bias_0 =? M) BiasLength ;;;
  SetOutputSize NHWC op X M ;;;
  let* temp_filter_data := evaluated (temp_filter op filter C M) in
  let* Y := Output in
  let* Y_1 := dim32 Y 1 InconsistentOutputSize in
  let* Y_2 := dim32 Y 2 InconsistentOutputSize in
  let X_tensor := TensorMap (data X) [N; H; W; C] in
  let Y_tensor_dimensions := [N; Y_1; Y_2; M] in
  let filter_tensor :=
    TensorMap temp_filter_data [kernel_h_ op; kernel_w_ op; C; M] in
  let* Y_size_M := divide (Tensor_size Y) M in
  let pre_contract_dims := [Y_size_M; kernel_h_ op * kernel_w_ op * C] in
  let kernel_dims := [kernel_h_ op * kernel_w_ op * C; M] in
  (* Y_tensor = X_tensor.extract_image_patches(...)... *)
  let* contracted :=
    evaluated (evalTensor
      (convolution op X_tensor filter_tensor
         pre_contract_dims kernel_dims Y_tensor_dimensions)) in
  store contracted ;;;
  (* Y_arr = Y_arr.colwise() + bias_arr *)
  let* Y' := Output in
  let Y_arr := EigenArrayMap (data Y') M Y_size_M in
  let bias_arr := EigenVectorArrayMap (data bias) M in
  let* biased := evaluated (evalArray (colwise_add Y_arr bias_arr)) in
  store biased ;;;
  ret true.

Definition RunOnDeviceWithOrderNCHW (op : ConvPoolOpBase) : Op T bool :=
  let* X := Input INPUT in
  let* filter := Input FILTER in
  let* bias := Input BIAS in
  let* N := dim32 X 0 (InvalidShape InputRank) in
  let* C := dim32 X 1 (InvalidShape InputRank) in
  let* H := dim32 X 2 (InvalidShape InputRank) in
  let* W := dim32 X 3 (InvalidShape InputRank) in
  CAFFE_ENFORCE (4 =? ndim filter) FilterRank ;;;
  let* M := dim32 filter 0 (InvalidShape FilterRank) in
  let* filter_1 := dim32 filter 1 (InvalidShape FilterRank) in
  CAFFE_ENFORCE (filter_1 =? C) FilterChannels ;;;
  let* filter_2 := dim32 filter 2 (InvalidShape FilterRank) in
  CAFFE_ENFORCE (filter_2 =? kernel_h_ op) FilterKernelH ;;;
  let* filter_3 := dim32 filter 3 (InvalidShape FilterRank) in
  CAFFE_ENFORCE (filter_3 =? kernel_w_ op) FilterKernelW ;;;
  CAFFE_ENFORCE (1 =? ndim bias) BiasRank ;;;
  let* bias_0 := dim32 bias 0 (InvalidShape BiasRank) in
  CAFFE_ENFORCE (bias_0 =? M) BiasLength ;;;
  SetOutputSize NCHW op X M ;;;
  let kernel_shuffles := [2; 3; 1; 0]%nat in
  let input_shuffles := [0; 2; 3; 1]%nat in
  let* filter_tensor :=
    evaluated (materialize
      (shuffle kernel_shuffles
         (TensorMap (data filter) [M; C; kernel_h_ op; kernel_w_ op]))) in
  let* X_tensor :=
    evaluated (materialize
      (shuffle input_shuffles (TensorMap (data X) [N; C; H; W]))) in
  let* Y := Output in
  let* Y_size_M := divide (Tensor_size Y) M in
  let pre_contract_dims := [Y_size_M; kernel_h_ op * kernel_w_ op * C] in
  let kernel_dims := [kernel_h_ op * kernel_w_ op * C; M] in
  let* Y_0 := dim32 Y 0 InconsistentOutputSize in
  let* Y_1 := dim32 Y 1 InconsistentOutputSize in
  let* Y_2 := dim32 Y 2 InconsistentOutputSize in
  let* Y_3 := dim32 Y 3 InconsistentOutputSize in
  (* Y_tensor(Y->dim32(0), Y->dim32(2), Y->dim32(3), Y->dim32(1)) *)
  let Y_tensor_dimensions := [Y_0; Y_2; Y_3; Y_1] in
  let* contracted :=
    evaluated (evalTensor
      (convolution op X_tensor filter_tensor
         pre_contract_dims kernel_dims Y_tensor_dimensions)) in
  (* Y_arr maps the buffer of the local Y_tensor *)
  let Y_arr := EigenArrayMap contracted M Y_size_M in
  let bias_arr := EigenVectorArrayMap (data bias) M in
  let* biased := evaluated (evalArray (colwise_add Y_arr bias_arr)) in
  let Y_tensor := TensorMap biased Y_tensor_dimensions in
  (* Do a last transpose. *)
  let output_shuffles := [0; 3; 1; 2]%nat in
  let* shuffled :=
    evaluated (evalTensor (shuffle output_shuffles Y_tensor)) in
  store shuffled ;;;
  ret true.

(** The entry point that the caller picks for a declared storage
    order. *)
Definition RunOnDevice (order : StorageOrder) (op : ConvPoolOpBase) : Op T bool :=
  match order with
  | NCHW => RunOnDeviceWithOrderNCHW op
  | NHWC => RunOnDeviceWithOrderNHWC op
  end.

End EigenConvOp.


(** ** Reference definitions

    The vocabulary in which the properties of the operator are stated:
    logical (multi-index) access to the buffers, the zero-filled window
    of an output position, and the sums of the convolution. *)

Section Reference.
Context {T : Type} {ScalarT : Scalar T}.

(** The element of a buffer at an index, [zero] outside of the buffer. *)
Definition get (buf : list T) (index : Z) : T := default zero (load buf index).

(** The buffer of [n] elements whose element [k] is [g k]. *)
Definition tabulate (n : Z) (g : Z → T) : list T :=
  (λ k : nat, g (Z.of_nat k)) <$> seq 0 (Z.to_nat n).

(** The element [(a, b, c, d)] of a buffer read as a row-major tensor
    whose last three dimensions are [d1], [d2] and [d3]. *)
Definition at4 (buf : list T) (d1 d2 d3 : Z) (a b c d : Z) : T :=
  get buf (((a * d1 + b) * d2 + c) * d3 + d).

(** The blobs with the buffer of the output replaced. *)
Definition with_output (ws : Blobs T) (out : list T) : Blobs T :=
  mkBlobs (INPUT ws) (FILTER ws) (BIAS ws) (mkTensor (dims (OUTPUT ws)) out).

(** [f 0 + f 1 + ... + f (n-1)], accumulated from [zero], left to right. *)
Fixpoint sum_nat (n : nat) (f : Z → T) : T :=
  match n with
  | O => zero
  | S n' => add (sum_nat n' f) (f (Z.of_nat n'))
  end.

Definition sum_below (n : Z) (f : Z → T) : T := sum_nat (Z.to_nat n) f.

(** The output sizes of the two spatial axes. *)
Definition out_h (op : ConvPoolOpBase) (H : Z) : Z :=
  output_dim H (kernel_h_ op) (stride_h_ op) (dilation_h_ op) (pad_t_ op) (pad_b_ op).

Definition out_w (op : ConvPoolOpBase) (W : Z) : Z :=
  output_dim W (kernel_w_ op) (stride_w_ op) (dilation_w_ op) (pad_l_ op) (pad_r_ op).

(** The input coordinates sampled by kernel tap [i] (resp. [j]) of
    output row [y] (resp. column [x]). *)
Definition window_h (op : ConvPoolOpBase) (y i : Z) : Z :=
  y * stride_h_ op - pad_t_ op + i * dilation_h_ op.

Definition window_w (op : ConvPoolOpBase) (x j : Z) : Z :=
  x * stride_w_ op - pad_l_ op + j * dilation_w_ op.

(** Zero-fill: the input at [(n, h, w, c)], and [zero] when [h] or [w]
    is outside of the image.  [Xat] is the logical input, indexed
    (batch, row, column, channel) whatever its physical layout. *)
Definition sample (Xat : Z → Z → Z → Z → T) (H W : Z) (n h w c : Z) : T :=
  if (0 <=? h) && (h <? H) && (0 <=? w) && (w <? W) then Xat n h w c else zero.

(** The convolution as the specification writes it: the bias plus the
    sum over kernel row, kernel column and input channel.  [Fat] is the
    logical filter, indexed (output channel, kernel row, kernel column,
    input channel). *)
Definition conv_value (op : ConvPoolOpBase)
    (Xat Fat : Z → Z → Z → Z → T) (Bat : Z → T) (H W C : Z) (n y x m : Z) : T :=
  add (Bat m)
    (sum_below (kernel_h_ op) (λ i,
       sum_below (kernel_w_ op) (λ j,
         sum_below C (λ c,
           mul (sample Xat H W n (window_h op y i) (window_w op x j) c)
               (Fat m i j c))))).

(** The value of the contraction stage, before the bias: row
    [(n, y, x)] of the patch matrix times column [m] of the filter
    matrix, the contracted index [k] enumerating (kernel row, kernel
    column, channel) in row-major order. *)
Definition contraction_value (op : ConvPoolOpBase)
    (Xat Fat : Z → Z → Z → Z → T) (H W C : Z) (n y x m : Z) : T :=
  sum_below (kernel_h_ op * kernel_w_ op * C) (λ k,
    let i := k / C / kernel_w_ op in
    let j := k / C mod kernel_w_ op in
    let c := k mod C in
    mul (sample Xat H W n (window_h op y i) (window_w op x j) c)
        (Fat m i j c)).

(** The logical input and filter of the two physical layouts. *)
Definition NHWC_input (xd : list T) (H W C : Z) : Z → Z → Z → Z → T :=
  at4 xd H W C.

Definition NHWC_filter (op : ConvPoolOpBase) (fd : list T) (C : Z)
    : Z → Z → Z → Z → T :=
  at4 fd (kernel_h_ op) (kernel_w_ op) C.

Definition NCHW_input (xd : list T) (C H W : Z) : Z → Z → Z → Z → T :=
  λ n h w c, at4 xd C H W n c h w.

Definition NCHW_filter (op : ConvPoolOpBase) (fd : list T) (C : Z)
    : Z → Z → Z → Z → T :=
  λ m i j c, at4 fd C (kernel_h_ op) (kernel_w_ op) m c i j.

(** The buffer of the row-major tensor of dimensions [(d0, d1, d2, d3)]
    whose element [(a, b, c, d)] is [f a b c d]. *)
Definition tabulate4 (d0 d1 d2 d3 : Z) (f : Z → Z → Z → Z → T) : list T :=
  tabulate (d0 * d1 * d2 * d3) (λ q,
    f (q / d3 / d2 / d1) (q / d3 / d2 mod d1) (q / d3 mod d2) (q mod d3)).

(** The layout transposer (section 4.2 of the specification): the
    channel-first filter as [(kernel_h, kernel_w, C, M)], the
    channel-first input as [(N, H, W, C)], and a channel-last result as
    [(N, M, outH, outW)]. *)
Definition transposed_filter (op : ConvPoolOpBase) (fd : list T) (C M : Z)
    : list T :=
  tabulate4 (kernel_h_ op) (kernel_w_ op) C M (λ i j c m,
    at4 fd C (kernel_h_ op) (kernel_w_ op) m c i j).

Definition transposed_input (xd : list T) (N C H W : Z) : list T :=
  tabulate4 N H W C (λ n h w c, at4 xd C H W n c h w).

Definition transposed_output (buf : list T) (N M oh ow : Z) : list T :=
  tabulate4 N M oh ow (λ n m y x, at4 buf oh ow M n y x m).

(** The buffer of a channel-last output: the element [(n, y, x, m)] of
    the [(N, outH, outW, M)] tensor is the contraction plus the bias. *)
Definition channel_last_output (op : ConvPoolOpBase)
    (Xat Fat : Z → Z → Z → Z → T) (Bat : Z → T) (N H W C M : Z) : list T :=
  tabulate4 N (out_h op H) (out_w op W) M (λ n y x m,
    add (contraction_value op Xat Fat H W C n y x m) (Bat m)).

(** The buffer of a channel-first output: the element [(n, m, y, x)] of
    the [(N, M, outH, outW)] tensor is the contraction plus the bias. *)
Definition channel_first_output (op : ConvPoolOpBase)
    (Xat Fat : Z → Z → Z → Z → T) (Bat : Z → T) (N H W C M : Z) : list T :=
  tabulate4 N M (out_h op H) (out_w op W) (λ n m y x,
    add (contraction_value op Xat Fat H W C n y x m) (Bat m)).

(** The configuration of the operator that the specification admits:
    non-negative integers, with kernel and stride at least 1. *)
Record valid_params (op : ConvPoolOpBase) : Prop := {
  valid_kernel_h : 1 ≤ kernel_h_ op;
  valid_kernel_w : 1 ≤ kernel_w_ op;
  valid_stride_h : 1 ≤ stride_h_ op;
  valid_stride_w : 1 ≤ stride_w_ op;
  valid_dilation_h : 0 ≤ dilation_h_ op;
  valid_dilation_w : 0 ≤ dilation_w_ op;
  valid_pad_t : 0 ≤ pad_t_ op;
  valid_pad_l : 0 ≤ pad_l_ op;
  valid_pad_b : 0 ≤ pad_b_ op;
  valid_pad_r : 0 ≤ pad_r_ op
}.

(** The shape of the input and of the filter for a storage order. *)
Definition input_shape (order : StorageOrder) (N C H W : Z) : list Z :=
  match order with
  | NCHW => [N; C; H; W]
  | NHWC => [N; H; W; C]
  end.

Definition filter_shape (order : StorageOrder) (op : ConvPoolOpBase) (M C : Z)
    : list Z :=
  match order with
  | NCHW => [M; C; kernel_h_ op; kernel_w_ op]
  | NHWC => [M; kernel_h_ op; kernel_w_ op; C]
  end.

(** A valid invocation of the entry point of a storage order: a valid
    configuration, well-formed tensors of the shapes that the entry
    point expects, at least one output channel. *)
Record valid_invocation (order : StorageOrder) (op : ConvPoolOpBase)
    (ws : Blobs T) (N C H W M : Z) : Prop := {
  valid_op : valid_params op;
  valid_channels : 1 ≤ M;
  valid_input_dims : dims (INPUT ws) = input_shape order N C H W;
  valid_filter_dims : dims (FILTER ws) = filter_shape order op M C;
  valid_bias_dims : dims (BIAS ws) = [M];
  valid_output_dims :
    dims (OUTPUT ws) = output_shape order N M (out_h op H) (out_w op W);
  valid_input_wf : Tensor_wf (INPUT ws);
  valid_filter_wf : Tensor_wf (FILTER ws);
  valid_bias_wf : Tensor_wf (BIAS ws);
  valid_output_wf : Tensor_wf (OUTPUT ws)
}.

(** The logical input and filter of the blobs, the linear index of the
    output element [(n, y, x, m)], and the axes of the filter and of the
    input that the shape checks compare, for a storage order. *)
Definition logical_input (order : StorageOrder) (ws : Blobs T) (C H W : Z)
    : Z → Z → Z → Z → T :=
  match order with
  | NCHW => NCHW_input (data (INPUT ws)) C H W
  | NHWC => NHWC_input (data (INPUT ws)) H W C
  end.

Definition logical_filter (order : StorageOrder) (op : ConvPoolOpBase)
    (ws : Blobs T) (C : Z) : Z → Z → Z → Z → T :=
  match order with
  | NCHW => NCHW_filter op (data (FILTER ws)) C
  | NHWC => NHWC_filter op (data (FILTER ws)) C
  end.

Definition output_index (order : StorageOrder) (M oh ow : Z) (n y x m : Z) : Z :=
  match order with
  | NCHW => ((n * M + m) * oh + y) * ow + x
  | NHWC => ((n * oh + y) * ow + x) * M + m
  end.

Definition channel_axis (order : StorageOrder) : nat :=
  match order with NCHW => 1 | NHWC => 3 end.

Definition height_axis (order : StorageOrder) : nat :=
  match order with NCHW => 2 | NHWC => 1 end.

Definition width_axis (order : StorageOrder) : nat :=
  match order with NCHW => 3 | NHWC => 2 end.

(** The filter matrix that the words of the specification describe for
    the channel-last path (section 4.4): the buffer supplied by the
    caller, reshaped to [(kernel_h_ * kernel_w_ * C, M)] as it is. *)
Definition filter_matrix_direct (op : ConvPoolOpBase) (filter : Tensor T)
    (C M : Z) : TensorEvaluator T :=
  reshape [kernel_h_ op * kernel_w_ op * C; M]
    (TensorMap (data filter) [kernel_h_ op; kernel_w_ op; C; M]).

(** The inputs of an invocation are left as they were. *)
Definition inputs_unchanged (ws ws' : Blobs T) : Prop :=
  INPUT ws' = INPUT ws ∧ FILTER ws' = FILTER ws ∧ BIAS ws' = BIAS ws.

(** A computation leaves the three inputs and the shape of the output as
    they were. *)
Definition preserves {A} (c : Op T A) : Prop :=
  ∀ ws, inputs_unchanged ws (c ws).1 ∧ dims (OUTPUT (c ws).1) = dims (OUTPUT ws).

(** The matrix that the contraction of the channel-last path is given
    (lines 129-133, 142-143 and 185): the temporary filter, seen as a
    [(kernel_h, kernel_w, C, M)] tensor and reshaped to
    [(kernel_h * kernel_w * C, M)]. *)
Definition contraction_filter_matrix (op : ConvPoolOpBase) (filter : Tensor T)
    (C M : Z) : option (TensorEvaluator T) :=
  temp ← temp_filter op filter C M;
  Some (reshape [kernel_h_ op * kernel_w_ op * C; M]
          (TensorMap temp [kernel_h_ op; kernel_w_ op; C; M])).

(** The channel-last blobs that carry the same logical tensors as
    channel-first blobs: the input and the filter are permuted, the bias
    is shared, the output buffer has the channel-last shape. *)
Definition channel_last_blobs (op : ConvPoolOpBase) (ws : Blobs T)
    (N C H W M : Z) : Blobs T :=
  mkBlobs
    (mkTensor [N; H; W; C] (transposed_input (data (INPUT ws)) N C H W))
    (mkTensor [M; kernel_h_ op; kernel_w_ op; C]
       (tabulate4 M (kernel_h_ op) (kernel_w_ op) C
          (NCHW_filter op (data (FILTER ws)) C)))
    (BIAS ws)
    (mkTensor [N; out_h op H; out_w op W; M]
       (tabulate4 N (out_h op H) (out_w op W) M (λ _ _ _ _, zero))).

End Reference.

(** ** Concrete invocations *)

(** A 3x3 kernel, stride 1, dilation 1, padding 1 on every side. *)
Definition op_3x3 : ConvPoolOpBase := mkConvPoolOpBase 3 3 1 1 1 1 1 1 1 1.

(** A 1x1 kernel, no padding. *)
Definition op_1x1 : ConvPoolOpBase := mkConvPoolOpBase 1 1 1 1 1 1 0 0 0 0.

(** A 1x1 kernel, with a padding of 2 around a 1x1 image. *)
Definition op_padded : ConvPoolOpBase := mkConvPoolOpBase 1 1 1 1 1 1 2 2 2 2.

(** One batch, one channel, a 3x3 image and an all-ones 3x3 filter. *)
Definition blobs_3x3 : Blobs Z :=
  mkBlobs (mkTensor [1; 3; 3; 1] [1; 2; 3; 4; 5; 6; 7; 8; 9])
          (mkTensor [1; 3; 3; 1] [1; 1; 1; 1; 1; 1; 1; 1; 1])
          (mkTensor [1] [100])
          (mkTensor [1; 3; 3; 1] [0; 0; 0; 0; 0; 0; 0; 0; 0]).

(** Two channels, a 1x2 image, two output channels: channel-first and
    channel-last layouts of the same tensors. *)
Definition blobs_NCHW : Blobs Z :=
  mkBlobs (mkTensor [1; 2; 1; 2] [1; 2; 3; 4])
          (mkTensor [2; 2; 1; 1] [10; 20; 30; 40])
          (mkTensor [2] [5; 6])
          (mkTensor [1; 2; 1; 2] [0; 0; 0; 0]).

Definition blobs_NHWC : Blobs Z :=
  mkBlobs (mkTensor [1; 1; 2; 2] [1; 3; 2; 4])
          (mkTensor [2; 1; 1; 2] [10; 20; 30; 40])
          (mkTensor [2] [5; 6])
          (mkTensor [1; 1; 2; 2] [0; 0; 0; 0]).

(** A 1x1 image, padded to 5x5. *)
Definition blobs_padded : Blobs Z :=
  mkBlobs (mkTensor [1; 1; 1; 1] [7])
          (mkTensor [1; 1; 1; 1] [3])
          (mkTensor [1] [1])
          (mkTensor [1; 5; 5; 1] (replicate 25 0)).

(** A filter of rank 3, and an output buffer of the wrong size. *)
Definition blobs_bad_filter : Blobs Z :=
  mkBlobs (mkTensor [1; 3; 3; 1] [1; 2; 3; 4; 5; 6; 7; 8; 9])
          (mkTensor [3; 3; 1] [1; 1; 1; 1; 1; 1; 1; 1; 1])
          (mkTensor [1] [100])
          (mkTensor [1; 3; 3; 1] [0; 0; 0; 0; 0; 0; 0; 0; 0]).

Definition blobs_bad_output : Blobs Z :=
  mkBlobs (mkTensor [1; 3; 3; 1] [1; 2; 3; 4; 5; 6; 7; 8; 9])
          (mkTensor [1; 3; 3; 1] [1; 1; 1; 1; 1; 1; 1; 1; 1])
          (mkTensor [1] [100])
          (mkTensor [1; 2; 2; 1] [0; 0; 0; 0]).

(** A channel-last filter of two output channels and two input
    channels. *)
Definition filter_2x2 : Tensor Z := mkTensor [2; 1; 1; 2] [1; 2; 3; 4].


(** ** Further reference definitions *)

Section FurtherReference.
Context {T : Type} {ScalarT : Scalar T}.

(** The shape check that fails first, in the order in which the entry
    point of a storage order performs them; [None] when all pass. *)
Definition first_failed_check (order : StorageOrder) (op : ConvPoolOpBase)
    (ws : Blobs T) : option ShapeCheck :=
  let X := dims (INPUT ws) in
  let filter := dims (FILTER ws) in
  let bias := dims (BIAS ws) in
  if (length X <? 4)%nat then Some InputRank
  else if negb (length filter =? 4)%nat then Some FilterRank
  else
    let filter_checks :=
      match order with
      | NCHW =>
          [(filter !! 1%nat, X !! 1%nat, FilterChannels);
           (filter !! 2%nat, Some (kernel_h_ op), FilterKernelH);
           (filter !! 3%nat, Some (kernel_w_ op), FilterKernelW)]
      | NHWC =>
          [(filter !! 1%nat, Some (kernel_h_ op), FilterKernelH);
           (filter !! 2%nat, Some (kernel_w_ op), FilterKernelW);
           (filter !! 3%nat, X !! 3%nat, FilterChannels)]
      end in
    match filter_checks with
    | [(a1, b1, c1); (a2, b2, c2); (a3, b3, c3)] =>
        if negb (bool_decide (a1 = b1)) then Some c1
        else if negb (bool_decide (a2 = b2)) then Some c2
        else if negb (bool_decide (a3 = b3)) then Some c3
        else if negb (length bias =? 1)%nat then Some BiasRank
        else if negb (bool_decide (bias !! 0%nat = filter !! 0%nat))
        then Some BiasLength
        else None
    | _ => None
    end.

End FurtherReference.

(** The configuration with the same kernel, stride and dilation, and no
    padding. *)
Definition without_padding (op : ConvPoolOpBase) : ConvPoolOpBase :=
  mkConvPoolOpBase (kernel_h_ op) (kernel_w_ op) (stride_h_ op) (stride_w_ op)
    (dilation_h_ op) (dilation_w_ op) 0 0 0 0.

(** The input 3x3 image with a margin of zeros, as a 5x5 image. *)
Definition blobs_prepadded : Blobs Z :=
  mkBlobs (mkTensor [1; 5; 5; 1]
             [0; 0; 0; 0; 0;
              0; 1; 2; 3; 0;
              0; 4; 5; 6; 0;
              0; 7; 8; 9; 0;
              0; 0; 0; 0; 0])
          (mkTensor [1; 3; 3; 1] [1; 1; 1; 1; 1; 1; 1; 1; 1])
          (mkTensor [1] [100])
          (mkTensor [1; 3; 3; 1] [0; 0; 0; 0; 0; 0; 0; 0; 0]).

(** Channel counts and kernel sizes that both disagree. *)
Definition blobs_two_mismatches : Blobs Z :=
  mkBlobs (mkTensor [1; 3; 3; 3] (replicate 27 1))
          (mkTensor [1; 2; 2; 2] (replicate 8 1))
          (mkTensor [1] [1])
          (mkTensor [1; 1; 1; 1] [0]).

(** A filter with no output channel, in channel-last blobs. *)
Definition blobs_no_channel : Blobs Z :=
  mkBlobs (mkTensor [1; 3; 3; 1] [1; 2; 3; 4; 5; 6; 7; 8; 9])
          (mkTensor [0; 3; 3; 1] [])
          (mkTensor [0] [])
          (mkTensor [1; 3; 3; 0] []).

(** The 3x3 image with an all-zero filter. *)
Definition blobs_zero_filter : Blobs Z :=
  mkBlobs (mkTensor [1; 3; 3; 1] [1; 2; 3; 4; 5; 6; 7; 8; 9])
          (mkTensor [1; 3; 3; 1] [0; 0; 0; 0; 0; 0; 0; 0; 0])
          (mkTensor [1] [100])
          (mkTensor [1; 3; 3; 1] [0; 0; 0; 0; 0; 0; 0; 0; 0]).

(** The 3x3 image with another content outside of the window of the
    output position (0, 0), which covers rows and columns 0 and 1. *)
Definition blobs_3x3_far : Blobs Z :=
  mkBlobs (mkTensor [1; 3; 3; 1] [1; 2; 30; 4; 5; 60; 70; 80; 90])
          (mkTensor [1; 3; 3; 1] [1; 1; 1; 1; 1; 1; 1; 1; 1])
          (mkTensor [1] [100])
          (mkTensor [1; 3; 3; 1] [0; 0; 0; 0; 0; 0; 0; 0; 0]).

(** * Verification *)

#[export] Instance Z_ScalarLaws : ScalarLaws Z.
Proof. split; intros; unfold add, zero; simpl; lia. Qed.

(** ** Linear indices *)

Lemma flat_range (a b A B : Z) :
  0 ≤ a < A → 0 ≤ b < B → 0 ≤ a * B + b < A * B.
Proof. intros Ha Hb. nia. Qed.

Lemma flat_div (a b B : Z) : 0 ≤ b < B → (a * B + b) / B = a.
Proof.
  intros Hb. rewrite Z.div_add_l by lia.
  rewrite Z.div_small by lia. lia.
Qed.

Lemma flat_mod (a b B : Z) : 0 ≤ b < B → (a * B + b) mod B = b.
Proof.
  intros Hb. rewrite Z.add_comm, Z.mod_add by lia.
  apply Z.mod_small; lia.
Qed.

Lemma rem_mod (k B : Z) : k - k / B * B = k mod B.
Proof.
  destruct (decide (B = 0)) as [->|HB].
  - rewrite Z.mod_0_r, Z.div_0_r. lia.
  - rewrite Z.mod_eq by done. lia.
Qed.

Lemma unflat (k A B : Z) :
  0 ≤ k < A * B → 0 < B →
  0 ≤ k / B < A ∧ 0 ≤ k mod B < B ∧ k = k / B * B + k mod B.
Proof.
  intros Hk HB.
  pose proof (Z.div_mod k B ltac:(lia)) as Hdm.
  pose proof (Z.mod_pos_bound k B HB) as Hm.
  assert (0 ≤ k / B) by (apply Z.div_pos; lia).
  repeat split; try lia.
  apply Z.div_lt_upper_bound; lia.
Qed.

Lemma unflat2 (k A B C : Z) :
  0 ≤ k < A * B * C → 0 ≤ A → 0 ≤ B →
  0 ≤ k / C / B < A ∧ 0 ≤ k / C mod B < B ∧ 0 ≤ k mod C < C
  ∧ k = (k / C / B * B + k / C mod B) * C + k mod C.
Proof.
  intros Hk HA HB.
  assert (0 < C) as HC by nia.
  destruct (unflat k _ _ Hk HC) as (Hk1 & Hc & Ek).
  assert (0 < B) as HB' by nia.
  destruct (unflat _ _ _ Hk1 HB') as (Hi & Hj & Ek1).
  repeat split; lia.
Qed.

Lemma flat4_decode (a b c d d1 d2 d3 : Z) :
  0 ≤ b < d1 → 0 ≤ c < d2 → 0 ≤ d < d3 →
  let q := ((a * d1 + b) * d2 + c) * d3 + d in
  q / d3 / d2 / d1 = a ∧ q / d3 / d2 mod d1 = b
  ∧ q / d3 mod d2 = c ∧ q mod d3 = d.
Proof.
  intros Hb Hc Hd q. unfold q.
  rewrite flat_mod, !flat_div, !flat_mod by done. done.
Qed.

Lemma flat4_range (a b c d d0 d1 d2 d3 : Z) :
  0 ≤ a < d0 → 0 ≤ b < d1 → 0 ≤ c < d2 → 0 ≤ d < d3 →
  0 ≤ ((a * d1 + b) * d2 + c) * d3 + d < d0 * d1 * d2 * d3.
Proof.
  intros Ha Hb Hc Hd.
  apply flat_range; [|done]. apply flat_range; [|done]. by apply flat_range.
Qed.

Lemma unflat4 (q d0 d1 d2 d3 : Z) :
  0 ≤ q < d0 * d1 * d2 * d3 → 0 ≤ d0 → 0 ≤ d1 → 0 ≤ d2 →
  0 ≤ q / d3 / d2 / d1 < d0 ∧ 0 ≤ q / d3 / d2 mod d1 < d1
  ∧ 0 ≤ q / d3 mod d2 < d2 ∧ 0 ≤ q mod d3 < d3.
Proof.
  intros Hq Hd0 Hd1 Hd2.
  assert (0 ≤ d0 * d1) by (by apply Z.mul_nonneg_nonneg).
  destruct (unflat2 q (d0 * d1) d2 d3) as (Hq2 & Hc & Hd & _); [done..|].
  assert (0 < d1) as Hd1' by nia.
  destruct (unflat _ _ _ Hq2 Hd1') as (Ha & Hb & _).
  done.
Qed.

(** A positive product of non-negative factors has positive factors. *)
Lemma pos_factor_r (k A B : Z) : 0 ≤ k < A * B → 0 ≤ A → 0 < B.
Proof. intros Hk HA. nia. Qed.

Lemma ceil_div_succ (a s : Z) : 0 < s → ceil_div (a + 1) s = a / s + 1.
Proof.
  intros Hs. unfold ceil_div.
  pose proof (Z.div_mod a s ltac:(lia)) as Hdm.
  pose proof (Z.mod_pos_bound a s Hs) as Hm.
  assert ((- (a + 1)) / s = - (a / s) - 1) as ->; [|lia].
  symmetry. apply (Z.div_unique _ _ _ (s - 1 - a mod s)); lia.
Qed.

(** Eigen's count of patches along an axis is the output size of the
    shape calculator. *)
Lemma eigen_output_size (in_size kernel stride dilation pad_before pad_after : Z) :
  0 < stride →
  ceil_div ((in_size - 1) * 1 + 1 + pad_before + pad_after
            - (kernel + (kernel - 1) * (dilation - 1)) + 1) stride
  = output_dim in_size kernel stride dilation pad_before pad_after.
Proof.
  intros Hs. unfold output_dim. rewrite <- ceil_div_succ by done.
  f_equal. lia.
Qed.

(** ** Buffers *)

Section Buffers.
Context {T : Type} {ScalarT : Scalar T}.

Lemma length_tabulate (n : Z) (g : Z → T) :
  length (tabulate n g) = Z.to_nat n.
Proof. unfold tabulate. by rewrite length_fmap, length_seq. Qed.

Lemma load_tabulate (n : Z) (g : Z → T) (k : Z) :
  0 ≤ k < n → load (tabulate n g) k = Some (g k).
Proof.
  intros Hk. unfold load, tabulate.
  destruct (Z.leb_spec 0 k); [|lia].
  rewrite list_lookup_fmap, lookup_seq_lt by lia.
  simpl. f_equal. f_equal. lia.
Qed.

Lemma load_Some (buf : list T) (k : Z) :
  0 ≤ k < Z.of_nat (length buf) → load buf k = Some (get buf k).
Proof.
  intros Hk. unfold get, load.
  destruct (Z.leb_spec 0 k); [|lia].
  destruct (lookup_lt_is_Some_2 buf (Z.to_nat k)) as [v Hv]; [lia|].
  by rewrite Hv.
Qed.

Lemma get_tabulate (n : Z) (g : Z → T) (k : Z) :
  0 ≤ k < n → get (tabulate n g) k = g k.
Proof. intros Hk. unfold get. by rewrite load_tabulate. Qed.

Lemma tabulate_ext (n : Z) (g g' : Z → T) :
  (∀ k, 0 ≤ k < n → g k = g' k) → tabulate n g = tabulate n g'.
Proof.
  intros Hg. unfold tabulate. apply list_fmap_ext.
  intros i k Hk. apply lookup_seq in Hk as [-> Hlt]. apply Hg. lia.
Qed.

Lemma mapM_seq_Some (n : nat) (f : nat → option T) (g : Z → T) :
  (∀ k : nat, (k < n)%nat → f k = Some (g (Z.of_nat k))) →
  mapM f (seq 0 n) = Some ((λ k : nat, g (Z.of_nat k)) <$> seq 0 n).
Proof.
  intros Hf. apply mapM_Some_2, Forall2_fmap_r, Forall_Forall2_diag.
  apply Forall_forall. intros k Hk. apply Hf.
  apply elem_of_seq in Hk. lia.
Qed.

Lemma evalTensor_tabulate (e : TensorEvaluator T) (g : Z → T) :
  (∀ k, 0 ≤ k < numel (dimensions e) → coeff e k = Some (g k)) →
  evalTensor e = Some (tabulate (numel (dimensions e)) g).
Proof.
  intros Hc. unfold evalTensor, tabulate.
  apply mapM_seq_Some. intros k Hk. apply Hc. lia.
Qed.

Lemma evalArray_tabulate (a : ArrayEvaluator T) (g : Z → T) :
  (∀ k, 0 ≤ k < rows a * cols a →
     coeffRC a (k - k / rows a * rows a) (k / rows a) = Some (g k)) →
  evalArray a = Some (tabulate (rows a * cols a) g).
Proof.
  intros Hc. unfold evalArray, tabulate.
  apply mapM_seq_Some. intros k Hk. apply Hc. lia.
Qed.

Lemma length_tabulate4 (d0 d1 d2 d3 : Z) (f : Z → Z → Z → Z → T) :
  0 ≤ d0 → 0 ≤ d1 → 0 ≤ d2 → 0 ≤ d3 →
  Z.of_nat (length (tabulate4 d0 d1 d2 d3 f)) = d0 * d1 * d2 * d3.
Proof.
  intros. unfold tabulate4. rewrite length_tabulate.
  assert (0 ≤ d0 * d1 * d2 * d3) by (by repeat apply Z.mul_nonneg_nonneg).
  lia.
Qed.

Lemma load_tabulate4 (d0 d1 d2 d3 : Z) (f : Z → Z → Z → Z → T) (a b c d : Z) :
  0 ≤ a < d0 → 0 ≤ b < d1 → 0 ≤ c < d2 → 0 ≤ d < d3 →
  load (tabulate4 d0 d1 d2 d3 f) (((a * d1 + b) * d2 + c) * d3 + d)
  = Some (f a b c d).
Proof.
  intros Ha Hb Hc Hd. unfold tabulate4.
  rewrite load_tabulate by (by apply flat4_range).
  destruct (flat4_decode a b c d d1 d2 d3) as (-> & -> & -> & ->); done.
Qed.

Lemma at4_tabulate4 (d0 d1 d2 d3 : Z) (f : Z → Z → Z → Z → T) (a b c d : Z) :
  0 ≤ a < d0 → 0 ≤ b < d1 → 0 ≤ c < d2 → 0 ≤ d < d3 →
  at4 (tabulate4 d0 d1 d2 d3 f) d1 d2 d3 a b c d = f a b c d.
Proof. intros. unfold at4, get. by rewrite load_tabulate4. Qed.

Lemma tabulate4_ext (d0 d1 d2 d3 : Z) (f f' : Z → Z → Z → Z → T) :
  0 ≤ d0 → 0 ≤ d1 → 0 ≤ d2 →
  (∀ a b c d, 0 ≤ a < d0 → 0 ≤ b < d1 → 0 ≤ c < d2 → 0 ≤ d < d3 →
     f a b c d = f' a b c d) →
  tabulate4 d0 d1 d2 d3 f = tabulate4 d0 d1 d2 d3 f'.
Proof.
  intros Hd0 Hd1 Hd2 Hf. apply tabulate_ext. intros q Hq.
  destruct (unflat4 q d0 d1 d2 d3) as (Ha & Hb & Hc & Hd); [done..|].
  by apply Hf.
Qed.

(** *** Sums *)

Lemma sum_nat_ext (n : nat) (f g : Z → T) :
  (∀ k, 0 ≤ k < Z.of_nat n → f k = g k) → sum_nat n f = sum_nat n g.
Proof.
  induction n as [|n IH]; intros Hfg; [done|].
  cbn [sum_nat]. rewrite IH, Hfg; [done|lia|]. intros k Hk. apply Hfg. lia.
Qed.

Lemma sum_below_ext (n : Z) (f g : Z → T) :
  (∀ k, 0 ≤ k < n → f k = g k) → sum_below n f = sum_below n g.
Proof. intros Hfg. apply sum_nat_ext. intros k Hk. apply Hfg. lia. Qed.

Lemma sample_ext (Xat Xat' : Z → Z → Z → Z → T) (H W n h w c : Z) :
  (0 ≤ h < H → 0 ≤ w < W → Xat n h w c = Xat' n h w c) →
  sample Xat H W n h w c = sample Xat' H W n h w c.
Proof.
  intros Hext. unfold sample.
  destruct (Z.leb_spec 0 h), (Z.ltb_spec h H), (Z.leb_spec 0 w),
    (Z.ltb_spec w W); cbn [andb]; try done.
  apply Hext; lia.
Qed.

Lemma accumulate_sum (n : nat) (term : Z → option T) (g : Z → T) :
  (∀ k, 0 ≤ k < Z.of_nat n → term k = Some (g k)) →
  accumulate n term = Some (sum_nat n g).
Proof.
  induction n as [|n IH]; intros Ht; [done|].
  cbn [accumulate sum_nat]. rewrite IH by (intros k Hk; apply Ht; lia).
  rewrite Ht by lia. done.
Qed.

End Buffers.

(** ** The stages of the pipeline *)

Section Stages.
Context {T : Type} {ScalarT : Scalar T}.
Implicit Types (op : ConvPoolOpBase) (xd fd bd ft buf : list T).

(** The coefficient of the patch tensor at the linear index of patch
    [(n, y, x)], entry [(i, j, c)]. *)
Lemma patches_coeff_at op xd (N H W C n y x i j c : Z) :
  Z.of_nat (length xd) = N * H * W * C →
  0 < stride_h_ op → 0 < stride_w_ op →
  0 ≤ n < N → 0 ≤ y < out_h op H → 0 ≤ x < out_w op W →
  0 ≤ i < kernel_h_ op → 0 ≤ j < kernel_w_ op → 0 ≤ c < C →
  coeff (image_patches op (TensorMap xd [N; H; W; C]))
    (((n * out_h op H + y) * out_w op W + x) * (kernel_h_ op * kernel_w_ op * C)
     + ((i * kernel_w_ op + j) * C + c))
  = Some (sample (NHWC_input xd H W C) H W n (window_h op y i) (window_w op x j) c).
Proof.
  intros Hlen Hsh Hsw Hn Hy Hx Hi Hj Hc.
  set (kh := kernel_h_ op) in *. set (kw := kernel_w_ op) in *.
  set (oh := out_h op H) in *. set (ow := out_w op W) in *.
  set (p := (n * oh + y) * ow + x).
  set (k := (i * kw + j) * C + c).
  set (idx := p * (kh * kw * C) + k).
  assert (0 ≤ i * kw + j < kh * kw) as Hij by (by apply flat_range).
  assert (0 ≤ k < kh * kw * C) as Hk by (by apply flat_range).
  assert (0 ≤ y * ow + x < oh * ow) as Hyx by (by apply flat_range).
  assert (idx / (kw * kh * C * (ow * oh)) = n) as Fother.
  { symmetry.
    apply (Z.div_unique _ _ _ ((y * ow + x) * (kh * kw * C) + k));
      [|unfold idx, p; ring].
    left. nia. }
  assert (idx / (kw * kh * C) = p) as Fpatch.
  { symmetry. apply (Z.div_unique _ _ _ k); [|unfold idx; ring]. left. lia. }
  assert ((idx - n * (kw * kh * C * (ow * oh))) / (kw * kh * C) = y * ow + x)
    as F2d.
  { symmetry. apply (Z.div_unique _ _ _ k); [|unfold idx, p; ring]. left. lia. }
  assert ((idx - p * (kw * kh * C)) / C = i * kw + j) as Foff.
  { symmetry. apply (Z.div_unique _ _ _ c); [|unfold idx, k; ring]. left. lia. }
  assert (idx - idx / C * C = c) as Fdepth.
  { assert (idx / C = p * (kh * kw) + (i * kw + j)) as ->;
      [|unfold idx, k; ring].
    symmetry. apply (Z.div_unique _ _ _ c); [|unfold idx, k; ring]. left. lia. }
  assert ((y * ow + x) / ow = y) as Fcol by (apply flat_div; lia).
  assert ((i * kw + j) / kw = i) as Fcoff by (apply flat_div; lia).
  unfold image_patches, extract_image_patches.
  cbn [coeff dimensions TensorMap nth].
  rewrite !eigen_output_size by done.
  change (output_dim H _ _ _ _ _) with oh.
  change (output_dim W _ _ _ _ _) with ow.
  fold kh kw p k idx.
  rewrite Fother, Fpatch, F2d, Foff, Fdepth, Fcol, Fcoff.
  replace (y * ow + x - y * ow) with x by lia.
  replace (i * kw + j - i * kw) with j by lia.
  change (1 =? 1) with true. cbn [negb andb]. rewrite !orb_false_r.
  replace (y * stride_h_ op + i * dilation_h_ op - pad_t_ op)
    with (window_h op y i) by (unfold window_h; lia).
  replace (x * stride_w_ op + j * dilation_w_ op - pad_l_ op)
    with (window_w op x j) by (unfold window_w; lia).
  unfold sample, NHWC_input, at4.
  set (h := window_h op y i). set (w := window_w op x j).
  destruct (Z.ltb_spec h 0), (Z.leb_spec ((H - 1) * 1 + 1) h),
    (Z.leb_spec 0 h), (Z.ltb_spec h H); try lia; cbn [orb andb]; try done.
  destruct (Z.ltb_spec w 0), (Z.leb_spec ((W - 1) * 1 + 1) w),
    (Z.leb_spec 0 w), (Z.ltb_spec w W); try lia; cbn [orb andb]; try done.
  replace (c + w * C + h * (C * W) + n * (C * W * H))
    with (((n * H + h) * W + w) * C + c) by ring.
  apply load_Some. rewrite Hlen.
  apply flat_range; [|done]. apply flat_range; [|lia]. apply flat_range; lia.
Qed.

(** The same coefficient, at row [p] and column [k] of the patch
    matrix. *)
Lemma patches_coeff op xd (N H W C p k : Z) :
  Z.of_nat (length xd) = N * H * W * C →
  0 < stride_h_ op → 0 < stride_w_ op →
  0 ≤ N → 0 ≤ out_h op H → 0 ≤ kernel_h_ op → 0 ≤ kernel_w_ op →
  0 ≤ p < N * out_h op H * out_w op W →
  0 ≤ k < kernel_h_ op * kernel_w_ op * C →
  coeff (image_patches op (TensorMap xd [N; H; W; C])) (p * (kernel_h_ op * kernel_w_ op * C) + k)
  = Some (sample (NHWC_input xd H W C) H W
            (p / out_w op W / out_h op H)
            (window_h op (p / out_w op W mod out_h op H) (k / C / kernel_w_ op))
            (window_w op (p mod out_w op W) (k / C mod kernel_w_ op))
            (k mod C)).
Proof.
  intros Hlen Hsh Hsw HN Hoh Hkh Hkw0 Hp Hk.
  assert (0 < out_w op W) as How by (apply (pos_factor_r p (N * out_h op H)); [done|by apply Z.mul_nonneg_nonneg]).
  destruct (unflat p _ _ Hp How) as (Hp1 & Hx & Ep).
  assert (0 < out_h op H) as Hoh' by (by apply (pos_factor_r (p / out_w op W) N)).
  destruct (unflat _ _ _ Hp1 Hoh') as (Hn & Hy & Ep1).
  assert (0 < C) as HC by (apply (pos_factor_r k (kernel_h_ op * kernel_w_ op)); [done|by apply Z.mul_nonneg_nonneg]).
  destruct (unflat k _ _ Hk HC) as (Hk1 & Hc & Ek).
  assert (0 < kernel_w_ op) as Hkw by (by apply (pos_factor_r (k / C) (kernel_h_ op))).
  destruct (unflat _ _ _ Hk1 Hkw) as (Hi & Hj & Ek1).
  rewrite <- (patches_coeff_at op xd N H W C) by done.
  f_equal. rewrite <- Ep1, <- Ek1, <- Ep, <- Ek. done.
Qed.

(** The coefficients of the contraction: row [idx / M] of the patch
    matrix times column [idx mod M] of the filter matrix [ft]. *)
Lemma convolution_coeff op xd ft (N H W C M P idx : Z) (Y_dims : list Z) :
  Z.of_nat (length xd) = N * H * W * C →
  Z.of_nat (length ft) = kernel_h_ op * kernel_w_ op * C * M →
  0 < stride_h_ op → 0 < stride_w_ op →
  0 ≤ N → 0 ≤ out_h op H → 0 ≤ kernel_h_ op → 0 ≤ kernel_w_ op → 0 < M →
  0 ≤ idx < N * out_h op H * out_w op W * M →
  coeff (convolution op (TensorMap xd [N; H; W; C])
           (TensorMap ft [kernel_h_ op; kernel_w_ op; C; M])
           [P; kernel_h_ op * kernel_w_ op * C]
           [kernel_h_ op * kernel_w_ op * C; M] Y_dims) idx
  = Some (sum_below (kernel_h_ op * kernel_w_ op * C) (λ k,
            mul (sample (NHWC_input xd H W C) H W
                   (idx / M / out_w op W / out_h op H)
                   (window_h op (idx / M / out_w op W mod out_h op H)
                      (k / C / kernel_w_ op))
                   (window_w op (idx / M mod out_w op W)
                      (k / C mod kernel_w_ op))
                   (k mod C))
                (get ft (k * M + idx mod M)))).
Proof.
  intros Hxd Hft Hsh Hsw HN Hoh Hkh Hkw HM Hidx.
  destruct (unflat idx _ _ Hidx HM) as (Hp & Hm & _).
  unfold convolution, reshape, contract.
  cbn [coeff dimensions nth].
  apply accumulate_sum. intros k Hk.
  rewrite patches_coeff by (done || lia).
  rewrite rem_mod. cbn [TensorMap coeff].
  rewrite load_Some; [done|].
  rewrite Hft. apply flat_range; lia.
Qed.

(** The contraction stage evaluates, without any access out of bounds. *)
Lemma convolution_eval op xd ft (N H W C M P : Z) (Y_dims : list Z) :
  Z.of_nat (length xd) = N * H * W * C →
  Z.of_nat (length ft) = kernel_h_ op * kernel_w_ op * C * M →
  0 < stride_h_ op → 0 < stride_w_ op →
  0 ≤ N → 0 ≤ out_h op H → 0 ≤ kernel_h_ op → 0 ≤ kernel_w_ op → 0 < M →
  numel Y_dims = N * out_h op H * out_w op W * M →
  evalTensor (convolution op (TensorMap xd [N; H; W; C])
                (TensorMap ft [kernel_h_ op; kernel_w_ op; C; M])
                [P; kernel_h_ op * kernel_w_ op * C]
                [kernel_h_ op * kernel_w_ op * C; M] Y_dims)
  = Some (tabulate (N * out_h op H * out_w op W * M) (λ idx,
      sum_below (kernel_h_ op * kernel_w_ op * C) (λ k,
        mul (sample (NHWC_input xd H W C) H W
               (idx / M / out_w op W / out_h op H)
               (window_h op (idx / M / out_w op W mod out_h op H)
                  (k / C / kernel_w_ op))
               (window_w op (idx / M mod out_w op W)
                  (k / C mod kernel_w_ op))
               (k mod C))
            (get ft (k * M + idx mod M))))).
Proof.
  intros Hxd Hft Hsh Hsw HN Hoh Hkh Hkw HM HY.
  rewrite <- HY.
  apply (evalTensor_tabulate (convolution _ _ _ _ _ Y_dims)).
  cbn [convolution reshape dimensions]. rewrite HY. intros idx Hidx.
  by apply convolution_coeff.
Qed.

(** The bias stage: the vector is added to every column of the
    [M x cols] column-major array, that is [bias[k mod M]] to element
    [k] of the buffer. *)
Lemma bias_eval buf bd (M ncols : Z) :
  Z.of_nat (length buf) = M * ncols →
  Z.of_nat (length bd) = M →
  0 < M → 0 ≤ ncols →
  evalArray (colwise_add (EigenArrayMap buf M ncols) (EigenVectorArrayMap bd M))
  = Some (tabulate (M * ncols) (λ k, add (get buf k) (get bd (k mod M)))).
Proof.
  intros Hbuf Hbd HM Hncols.
  apply (evalArray_tabulate (colwise_add (EigenArrayMap buf M ncols) _)).
  cbn [colwise_add EigenArrayMap EigenVectorArrayMap rows cols coeffRC].
  intros k Hk.
  replace (k - k / M * M + k / M * M) with k by lia.
  rewrite rem_mod.
  pose proof (Z.mod_pos_bound k M HM).
  unfold EigenVectorArrayMap. rewrite !load_Some by lia. done.
Qed.

(** The temporary filter of the channel-last path: element [k * M + m]
    of the copy is element [m * K + k] of the filter. *)
Lemma temp_filter_eval op (filter : Tensor T) (C M : Z) :
  Z.of_nat (length (data filter)) = M * (kernel_h_ op * kernel_w_ op * C) →
  0 < M → 0 ≤ kernel_h_ op * kernel_w_ op * C →
  temp_filter op filter C M
  = Some (tabulate (M * (kernel_h_ op * kernel_w_ op * C)) (λ q,
            get (data filter)
              (q mod M * (kernel_h_ op * kernel_w_ op * C) + q / M))).
Proof.
  intros Hlen HM HK. unfold temp_filter.
  set (K := kernel_h_ op * kernel_w_ op * C) in *.
  apply (evalArray_tabulate (transpose (EigenArrayMap (data filter) K M))).
  cbn [transpose EigenArrayMap rows cols coeffRC].
  intros q Hq. rewrite rem_mod.
  rewrite (Z.mul_comm M K) in Hq.
  destruct (unflat q _ _ Hq HM) as (Hq1 & Hq2 & _).
  replace (q / M + q mod M * K) with (q mod M * K + q / M) by lia.
  apply load_Some. rewrite Hlen. apply flat_range; lia.
Qed.

End Stages.

(** ** The layout transposer *)

Section Shuffles.
Context {T : Type} {ScalarT : Scalar T}.
Implicit Types (buf : list T).

(** The source index of the coefficient [(a, b, c, d)] of a shuffled
    tensor whose dimensions are [(d0, d1, d2, d3)], the strides of the
    source along these axes being [(s0, s1, s2, s3)]. *)
Lemma srcCoeff_at (d0 d1 d2 d3 s0 s1 s2 s3 a b c d : Z) :
  0 ≤ b < d1 → 0 ≤ c < d2 → 0 ≤ d < d3 →
  srcCoeff (strides [d0; d1; d2; d3]) [s0; s1; s2; s3]
    (((a * d1 + b) * d2 + c) * d3 + d) 0
  = a * s0 + b * s1 + c * s2 + d * s3.
Proof.
  intros Hb Hc Hd.
  cbn [strides numel foldr srcCoeff].
  set (idx := ((a * d1 + b) * d2 + c) * d3 + d).
  assert (0 ≤ c * d3 + d < d2 * d3) as Hcd by (by apply flat_range).
  assert (0 ≤ (b * d2 + c) * d3 + d < d1 * d2 * d3) as Hbcd.
  { apply flat_range; [|done]. by apply flat_range. }
  assert (idx / (d1 * (d2 * (d3 * 1))) = a) as ->.
  { symmetry. apply (Z.div_unique _ _ _ ((b * d2 + c) * d3 + d));
      [left; lia|unfold idx; ring]. }
  assert ((idx - a * (d1 * (d2 * (d3 * 1)))) / (d2 * (d3 * 1)) = b) as ->.
  { symmetry. apply (Z.div_unique _ _ _ (c * d3 + d));
      [left; lia|unfold idx; ring]. }
  assert ((idx - a * (d1 * (d2 * (d3 * 1))) - b * (d2 * (d3 * 1))) / (d3 * 1) = c)
    as ->.
  { symmetry. apply (Z.div_unique _ _ _ d); [left; lia|unfold idx; ring]. }
  unfold idx. ring.
Qed.

(** The evaluation of a shuffle of a rank-4 tensor: no access out of
    bounds when every source index is within the buffer. *)
Lemma shuffle_eval buf (ds : list Z) (shfl : list nat)
    (d0 d1 d2 d3 s0 s1 s2 s3 : Z) :
  (λ s, nth s ds 0) <$> shfl = [d0; d1; d2; d3] →
  (λ s, nth s (strides ds) 0) <$> shfl = [s0; s1; s2; s3] →
  0 ≤ d0 → 0 ≤ d1 → 0 ≤ d2 →
  (∀ a b c d, 0 ≤ a < d0 → 0 ≤ b < d1 → 0 ≤ c < d2 → 0 ≤ d < d3 →
     0 ≤ a * s0 + b * s1 + c * s2 + d * s3 < Z.of_nat (length buf)) →
  evalTensor (shuffle shfl (TensorMap buf ds))
  = Some (tabulate4 d0 d1 d2 d3 (λ a b c d,
            get buf (a * s0 + b * s1 + c * s2 + d * s3))).
Proof.
  intros Hdims Hstrides Hd0 Hd1 Hd2 Hbound. unfold tabulate4.
  replace (d0 * d1 * d2 * d3) with (numel [d0; d1; d2; d3])
    by (cbn [numel foldr]; ring).
  rewrite <- Hdims.
  apply (evalTensor_tabulate (shuffle shfl (TensorMap buf ds))).
  unfold shuffle. cbn [dimensions coeff TensorMap].
  rewrite Hdims, Hstrides. intros q Hq.
  replace (numel [d0; d1; d2; d3]) with (d0 * d1 * d2 * d3) in Hq
    by (cbn [numel foldr]; ring).
  destruct (unflat4 q d0 d1 d2 d3) as (Ha & Hb & Hc & Hd); [done..|].
  assert (0 ≤ d0 * d1) by (by apply Z.mul_nonneg_nonneg).
  destruct (unflat2 q (d0 * d1) d2 d3) as (Hq2 & _ & _ & Eq); [done..|].
  destruct (unflat (q / d3 / d2) d0 d1) as (_ & _ & Eq2); [done|lia|].
  rewrite Eq at 1. rewrite Eq2 at 1.
  rewrite srcCoeff_at by done.
  apply load_Some. by apply Hbound.
Qed.

(** The three shuffles of the channel-first entry point. *)
Lemma kernel_shuffle_eval op (fd : list T) (C M : Z) :
  Z.of_nat (length fd) = M * C * kernel_h_ op * kernel_w_ op →
  0 ≤ kernel_h_ op → 0 ≤ kernel_w_ op → 0 ≤ C →
  evalTensor (shuffle [2; 3; 1; 0]%nat
                (TensorMap fd [M; C; kernel_h_ op; kernel_w_ op]))
  = Some (transposed_filter op fd C M).
Proof.
  intros Hlen Hkh Hkw HC.
  set (kh := kernel_h_ op) in *. set (kw := kernel_w_ op) in *.
  rewrite (shuffle_eval fd _ _ kh kw C M
             (kw * 1) 1 (kh * (kw * 1)) (C * (kh * (kw * 1))));
    [|done..|].
  - f_equal. apply tabulate4_ext; [done..|]. intros i j c m _ _ _ _.
    unfold at4. f_equal. unfold kh, kw. ring.
  - intros i j c m Hi Hj Hc Hm. rewrite Hlen.
    replace (i * (kw * 1) + j * 1 + c * (kh * (kw * 1)) + m * (C * (kh * (kw * 1))))
      with (((m * C + c) * kh + i) * kw + j) by ring.
    by apply flat4_range.
Qed.

Lemma input_shuffle_eval (xd : list T) (N C H W : Z) :
  Z.of_nat (length xd) = N * C * H * W →
  0 ≤ N → 0 ≤ H → 0 ≤ W →
  evalTensor (shuffle [0; 2; 3; 1]%nat (TensorMap xd [N; C; H; W]))
  = Some (transposed_input xd N C H W).
Proof.
  intros Hlen HN HH HW.
  rewrite (shuffle_eval xd _ _ N H W C
             (C * (H * (W * 1))) (W * 1) 1 (H * (W * 1)));
    [|done..|].
  - f_equal. apply tabulate4_ext; [done..|]. intros n h w c _ _ _ _.
    unfold at4. f_equal. ring.
  - intros n h w c Hn Hh Hw Hc. rewrite Hlen.
    replace (n * (C * (H * (W * 1))) + h * (W * 1) + w * 1 + c * (H * (W * 1)))
      with (((n * C + c) * H + h) * W + w) by ring.
    by apply flat4_range.
Qed.

Lemma output_shuffle_eval (buf : list T) (N M oh ow : Z) :
  Z.of_nat (length buf) = N * oh * ow * M →
  0 ≤ N → 0 ≤ M → 0 ≤ oh →
  evalTensor (shuffle [0; 3; 1; 2]%nat (TensorMap buf [N; oh; ow; M]))
  = Some (transposed_output buf N M oh ow).
Proof.
  intros Hlen HN HM Hoh.
  rewrite (shuffle_eval buf _ _ N M oh ow
             (oh * (ow * (M * 1))) 1 (ow * (M * 1)) (M * 1));
    [|done..|].
  - f_equal. apply tabulate4_ext; [done..|]. intros n m y x _ _ _ _.
    unfold at4. f_equal. ring.
  - intros n m y x Hn Hm Hy Hx. rewrite Hlen.
    replace (n * (oh * (ow * (M * 1))) + m * 1 + y * (ow * (M * 1)) + x * (M * 1))
      with (((n * oh + y) * ow + x) * M + m) by ring.
    by apply flat4_range.
Qed.

End Shuffles.

(** ** The entry points on valid invocations *)

(** Symbolic execution of a computation of the operator. *)
Ltac run_op :=
  repeat (progress cbv beta iota zeta delta
            [bind ret throw Input Output dim32 CAFFE_ENFORCE evaluated
             INPUT FILTER BIAS OUTPUT dims data lookup list_lookup
             output_shape]
          || rewrite Z.eqb_refl
          || (progress change (4 =? ndim _) with true)
          || (progress change (1 =? ndim _) with true)).

Section Runs.
Context {T : Type} {ScalarT : Scalar T}.

(** A store of as many elements as the output holds replaces its
    buffer. *)
Lemma store_full (vals : list T) (ws : Blobs T) :
  length vals = length (data (OUTPUT ws)) →
  store vals ws = (with_output ws vals, inr tt).
Proof.
  intros Hlen. unfold store, with_output.
  rewrite Hlen, Nat.leb_refl, drop_all, app_nil_r. done.
Qed.

Lemma NHWC_run (op : ConvPoolOpBase) (ws : Blobs T) (N C H W M : Z) :
  valid_invocation NHWC op ws N C H W M →
  RunOnDeviceWithOrderNHWC op ws
  = (with_output ws
       (channel_last_output op
          (NHWC_input (data (INPUT ws)) H W C)
          (NHWC_filter op (data (FILTER ws)) C)
          (get (data (BIAS ws))) N H W C M),
     inr true).
Proof.
  intros [Hop HM HX HF HB HY [HXd HXl] [HFd HFl] [HBd HBl] [HYd HYl]].
  destruct Hop.
  destruct ws as [[xdims xd] [fdims fd] [bdims bd] [ydims yd]].
  unfold Tensor_size in *. cbn [INPUT FILTER BIAS OUTPUT dims data] in *.
  cbn [input_shape filter_shape output_shape] in *. subst xdims fdims bdims ydims.
  cbn [numel foldr] in *.
  repeat match goal with
         | Hd : Forall _ (_ :: _) |- _ => apply Forall_cons in Hd as [? Hd]
         end.
  set (K := kernel_h_ op * kernel_w_ op * C).
  set (oh := out_h op H) in *. set (ow := out_w op W) in *.
  assert (0 ≤ K) by (unfold K; repeat apply Z.mul_nonneg_nonneg; lia).
  assert (N * (oh * (ow * (M * 1))) / M = N * oh * ow) as Hsize.
  { replace (N * (oh * (ow * (M * 1)))) with (N * oh * ow * M) by ring.
    apply Z.div_mul. lia. }
  unfold RunOnDeviceWithOrderNHWC, SetOutputSize.
  run_op.
  fold oh ow.
  rewrite decide_True by done. run_op.
  rewrite temp_filter_eval by (cbn [data]; fold K; lia). run_op.
  unfold Tensor_size, divide. cbn [numel foldr].
  destruct (Z.eqb_spec M 0) as [?|_]; [lia|]. run_op.
  cbn [numel foldr]. rewrite Hsize. fold K.
  assert (Z.of_nat (length xd) = N * H * W * C) as HXl' by (rewrite HXl; ring).
  assert (Z.of_nat (length (tabulate (M * K) (λ q, get fd (q mod M * K + q / M))))
          = K * M) as Hft by (rewrite length_tabulate; nia).
  rewrite (convolution_eval op xd _ N H W C M) by
    (done || lia || (cbn [numel foldr]; fold oh ow; ring)).
  set (contracted := tabulate (N * _ * _ * M) _).
  assert (length contracted = length yd) as Hclen.
  { unfold contracted. rewrite length_tabulate. apply Nat2Z.inj.
    rewrite HYl. fold oh ow. nia. }
  run_op. rewrite store_full by done.
  run_op. cbv beta iota zeta delta [with_output OUTPUT data dims].
  rewrite (bias_eval contracted bd M (N * oh * ow))
    by (rewrite ?Hclen, ?HYl, ?HBl; nia).
  run_op. rewrite store_full by (cbn [OUTPUT data]; rewrite length_tabulate; nia).
  cbv beta iota zeta delta [with_output INPUT FILTER BIAS OUTPUT data dims].
  do 3 f_equal. unfold channel_last_output, tabulate4. fold oh ow.
  replace (M * (N * oh * ow)) with (N * oh * ow * M) by ring.
  apply tabulate_ext. intros idx Hidx.
  f_equal.
  unfold contracted. rewrite get_tabulate by done.
  apply sum_below_ext. intros k Hk. f_equal.
  pose proof (Z.mod_pos_bound idx M ltac:(lia)) as Hm.
  rewrite get_tabulate by (rewrite (Z.mul_comm M K); apply flat_range; lia).
  rewrite flat_mod, flat_div by done.
  unfold NHWC_filter, at4. f_equal.
  destruct (unflat2 k (kernel_h_ op) (kernel_w_ op) C) as (_ & _ & _ & Ek);
    [done|lia|lia|].
  rewrite Ek at 1. unfold K. ring.
Qed.
Lemma NCHW_run (op : ConvPoolOpBase) (ws : Blobs T) (N C H W M : Z) :
  valid_invocation NCHW op ws N C H W M →
  RunOnDeviceWithOrderNCHW op ws
  = (with_output ws
       (channel_first_output op
          (NCHW_input (data (INPUT ws)) C H W)
          (NCHW_filter op (data (FILTER ws)) C)
          (get (data (BIAS ws))) N H W C M),
     inr true).
Proof.
  intros [Hop HM HX HF HB HY [HXd HXl] [HFd HFl] [HBd HBl] [HYd HYl]].
  destruct Hop.
  destruct ws as [[xdims xd] [fdims fd] [bdims bd] [ydims yd]].
  unfold Tensor_size in *. cbn [INPUT FILTER BIAS OUTPUT dims data] in *.
  cbn [input_shape filter_shape output_shape] in *. subst xdims fdims bdims ydims.
  cbn [numel foldr] in *.
  repeat match goal with
         | Hd : Forall _ (_ :: _) |- _ => apply Forall_cons in Hd as [? Hd]
         end.
  set (K := kernel_h_ op * kernel_w_ op * C).
  set (oh := out_h op H) in *. set (ow := out_w op W) in *.
  assert (0 ≤ K) by (unfold K; repeat apply Z.mul_nonneg_nonneg; lia).
  assert (N * (M * (oh * (ow * 1))) / M = N * oh * ow) as Hsize.
  { replace (N * (M * (oh * (ow * 1)))) with (N * oh * ow * M) by ring.
    apply Z.div_mul. lia. }
  unfold RunOnDeviceWithOrderNCHW, SetOutputSize.
  run_op.
  fold oh ow.
  rewrite decide_True by done. run_op.
  unfold materialize.
  rewrite kernel_shuffle_eval by (done || (rewrite HFl; ring)).
  rewrite input_shuffle_eval by (done || (rewrite HXl; ring)).
  set (filter_buf := transposed_filter op fd C M).
  set (X_buf := transposed_input xd N C H W).
  cbn [mbind option_bind]. run_op.
  unfold Tensor_size, divide. cbn [numel foldr].
  destruct (Z.eqb_spec M 0) as [?|_]; [lia|]. run_op.
  cbn [numel foldr]. rewrite Hsize.
  change (dimensions (shuffle _ (TensorMap fd _))) with [kernel_h_ op; kernel_w_ op; C; M].
  change (dimensions (shuffle _ (TensorMap xd _))) with [N; H; W; C].
  assert (Z.of_nat (length X_buf) = N * H * W * C) as HXbuf
    by (by apply length_tabulate4).
  assert (Z.of_nat (length filter_buf) = kernel_h_ op * kernel_w_ op * C * M)
    as HFbuf
    by (apply length_tabulate4; lia).
  rewrite (convolution_eval op X_buf filter_buf N H W C M) by
    (done || lia || (cbn [numel foldr]; fold oh ow; ring)).
  set (contracted := tabulate (N * _ * _ * M) _).
  assert (Z.of_nat (length contracted) = M * (N * oh * ow)) as Hclen.
  { unfold contracted. rewrite length_tabulate. fold oh ow. nia. }
  run_op.
  rewrite (bias_eval contracted bd M (N * oh * ow))
    by (rewrite ?Hclen, ?HBl; nia).
  set (biased := tabulate (M * (N * oh * ow)) _).
  run_op.
  rewrite output_shuffle_eval
    by (done || lia || (unfold biased; rewrite length_tabulate; nia)).
  run_op.
  rewrite store_full
    by (cbn [OUTPUT data]; apply Nat2Z.inj;
        unfold transposed_output; rewrite length_tabulate4, HYl by lia; ring).
  cbv beta iota zeta delta [with_output INPUT FILTER BIAS OUTPUT data dims].
  do 3 f_equal. unfold channel_first_output, transposed_output. fold oh ow.
  apply tabulate4_ext; [lia..|]. intros n m y x Hn Hm Hy Hx.
  set (idx := ((n * oh + y) * ow + x) * M + m).
  assert (0 ≤ idx < N * oh * ow * M) as Hidx by (by apply flat4_range).
  destruct (flat4_decode n y x m oh ow M) as (En & Ey & Ex & Em); [done..|].
  fold idx in En, Ey, Ex, Em.
  unfold at4. fold idx.
  unfold biased. rewrite get_tabulate by lia. rewrite Em. f_equal.
  unfold contracted. rewrite get_tabulate by done. fold oh ow.
  rewrite En, Ey, Ex, Em.
  apply sum_below_ext. intros k Hk.
  destruct (unflat2 k (kernel_h_ op) (kernel_w_ op) C) as (Hi & Hj & Hc & Ek); [done|lia|lia|].
  f_equal.
  - apply sample_ext. intros Hh Hw. unfold NHWC_input, NCHW_input, X_buf.
    unfold transposed_input. by rewrite at4_tabulate4.
  - rewrite Ek at 1. unfold NCHW_filter, filter_buf, transposed_filter.
    change (get ?b ((((?i * kernel_w_ op + ?j) * C + ?c) * M) + ?m'))
      with (at4 b (kernel_w_ op) C M i j c m').
    by rewrite at4_tabulate4.
Qed.

End Runs.

(** ** The elements of the outputs *)

Section Outputs.
Context {T : Type} {ScalarT : Scalar T}.
Implicit Types (Xat Fat : Z → Z → Z → Z → T) (Bat : Z → T).

Lemma channel_last_output_at op Xat Fat Bat (N H W C M n y x m : Z) :
  0 ≤ n < N → 0 ≤ y < out_h op H → 0 ≤ x < out_w op W → 0 ≤ m < M →
  load (channel_last_output op Xat Fat Bat N H W C M)
       (((n * out_h op H + y) * out_w op W + x) * M + m)
  = Some (add (contraction_value op Xat Fat H W C n y x m) (Bat m)).
Proof. intros. unfold channel_last_output. by rewrite load_tabulate4. Qed.

Lemma channel_first_output_at op Xat Fat Bat (N H W C M n y x m : Z) :
  0 ≤ n < N → 0 ≤ y < out_h op H → 0 ≤ x < out_w op W → 0 ≤ m < M →
  load (channel_first_output op Xat Fat Bat N H W C M)
       (((n * M + m) * out_h op H + y) * out_w op W + x)
  = Some (add (contraction_value op Xat Fat H W C n y x m) (Bat m)).
Proof. intros. unfold channel_first_output. by rewrite load_tabulate4. Qed.

(** The contraction depends on the logical input and filter only
    within their bounds. *)
Lemma contraction_value_ext op Xat Xat' Fat Fat' (H W C n y x m : Z) :
  (∀ h w c, 0 ≤ h < H → 0 ≤ w < W → 0 ≤ c < C → Xat n h w c = Xat' n h w c) →
  (∀ i j c, 0 ≤ i < kernel_h_ op → 0 ≤ j < kernel_w_ op → 0 ≤ c < C →
     Fat m i j c = Fat' m i j c) →
  0 ≤ kernel_h_ op → 0 ≤ kernel_w_ op →
  contraction_value op Xat Fat H W C n y x m
  = contraction_value op Xat' Fat' H W C n y x m.
Proof.
  intros HX HF Hkh Hkw. unfold contraction_value.
  apply sum_below_ext. intros k Hk. cbv zeta.
  destruct (unflat2 k (kernel_h_ op) (kernel_w_ op) C) as (Hi & Hj & Hc & _);
    [done..|].
  f_equal; [|by apply HF].
  apply sample_ext. intros Hh Hw. by apply HX.
Qed.

(** *** Sums in exact arithmetic *)

Context {LawsT : ScalarLaws T}.

Lemma scalar_add_zero_r (a : T) : add a zero = a.
Proof. rewrite scalar_add_comm. apply scalar_add_zero_l. Qed.

Lemma sum_nat_app (n n' : nat) (f : Z → T) :
  sum_nat (n + n') f
  = add (sum_nat n f) (sum_nat n' (λ k, f (Z.of_nat n + k))).
Proof.
  induction n' as [|n' IH].
  - rewrite Nat.add_0_r. cbn [sum_nat]. by rewrite scalar_add_zero_r.
  - rewrite Nat.add_succ_r. cbn [sum_nat]. rewrite IH, scalar_add_assoc.
    do 2 f_equal. lia.
Qed.

(** A sum over a flat index is the nested sum over its two
    coordinates. *)
Lemma sum_below_flat (A B : Z) (f : Z → T) :
  0 ≤ A → 0 ≤ B →
  sum_below (A * B) f = sum_below A (λ a, sum_below B (λ b, f (a * B + b))).
Proof.
  intros HA HB. unfold sum_below.
  rewrite <- (Z2Nat.id A HA) at 1. generalize (Z.to_nat A). intros a.
  induction a as [|a IH]; [done|].
  replace (Z.to_nat (Z.of_nat (S a) * B))
    with (Z.to_nat (Z.of_nat a * B) + Z.to_nat B)%nat by nia.
  rewrite sum_nat_app, IH. cbn [sum_nat]. f_equal.
  apply sum_nat_ext. intros b Hb. f_equal. nia.
Qed.

(** The contraction is the triple sum over kernel row, kernel column and
    channel. *)
Lemma contraction_value_nested op Xat Fat (H W C n y x m : Z) :
  0 ≤ kernel_h_ op → 0 ≤ kernel_w_ op → 0 ≤ C →
  contraction_value op Xat Fat H W C n y x m
  = sum_below (kernel_h_ op) (λ i,
      sum_below (kernel_w_ op) (λ j,
        sum_below C (λ c,
          mul (sample Xat H W n (window_h op y i) (window_w op x j) c)
              (Fat m i j c)))).
Proof.
  intros Hkh Hkw HC. unfold contraction_value.
  rewrite sum_below_flat by (done || by apply Z.mul_nonneg_nonneg).
  rewrite sum_below_flat by done.
  apply sum_below_ext. intros i Hi.
  apply sum_below_ext. intros j Hj.
  apply sum_below_ext. intros c Hc. cbv zeta.
  rewrite flat_mod, flat_div, flat_div, flat_mod by done. done.
Qed.

End Outputs.

(** ** The two entry points compute the convolution *)

Section Correctness.
Context {T : Type} {ScalarT : Scalar T}.

(** C1.  For every valid channel-last invocation the call succeeds, and
    the output element [(n, y, x, m)] is [bias[m]] plus the sum, over
    kernel row [i], kernel column [j] and input channel [c], of
    [X[n, y*stride_h - pad_t + i*dilation_h, x*stride_w - pad_l + j*dilation_w, c]
     * filter[m, i, j, c]], a sample outside of the image counting as
    zero.  The sum is rearranged with the laws of exact arithmetic. *)
Theorem NHWC_output_is_convolution {LawsT : ScalarLaws T}
    (op : ConvPoolOpBase) (ws : Blobs T) (N C H W M : Z) :
  valid_invocation NHWC op ws N C H W M →
  ∃ ws',
    RunOnDeviceWithOrderNHWC op ws = (ws', inr true)
    ∧ dims (OUTPUT ws') = [N; out_h op H; out_w op W; M]
    ∧ ∀ n y x m,
        0 ≤ n < N → 0 ≤ y < out_h op H → 0 ≤ x < out_w op W → 0 ≤ m < M →
        load (data (OUTPUT ws')) (((n * out_h op H + y) * out_w op W + x) * M + m)
        = Some (conv_value op
                  (NHWC_input (data (INPUT ws)) H W C)
                  (NHWC_filter op (data (FILTER ws)) C)
                  (get (data (BIAS ws))) H W C n y x m).
Proof.
  intros Hvalid. eexists. split; [by apply NHWC_run|].
  destruct Hvalid as [[] HM HX HF HB HY [HXd _] _ _ _].
  split; [done|]. intros n y x m Hn Hy Hx Hm.
  cbn [with_output OUTPUT data].
  rewrite channel_last_output_at by done. f_equal.
  unfold conv_value. rewrite scalar_add_comm. f_equal.
  apply contraction_value_nested; [lia|lia|].
  rewrite HX in HXd. cbn [input_shape] in HXd.
  by do 3 apply Forall_cons in HXd as [_ HXd]; apply Forall_cons in HXd as [? _].
Qed.

(** C2.  On numerically equivalent tensors, laid out per the order of
    each entry point, the two entry points succeed and produce
    numerically equivalent outputs:
    [output_nchw[n, m, y, x] = output_nhwc[n, y, x, m]]. *)
Theorem layouts_agree (op : ConvPoolOpBase) (ws1 ws2 : Blobs T) (N C H W M : Z) :
  valid_invocation NCHW op ws1 N C H W M →
  valid_invocation NHWC op ws2 N C H W M →
  (∀ n c h w, 0 ≤ n < N → 0 ≤ c < C → 0 ≤ h < H → 0 ≤ w < W →
     NCHW_input (data (INPUT ws1)) C H W n h w c
     = NHWC_input (data (INPUT ws2)) H W C n h w c) →
  (∀ m c i j, 0 ≤ m < M → 0 ≤ c < C →
     0 ≤ i < kernel_h_ op → 0 ≤ j < kernel_w_ op →
     NCHW_filter op (data (FILTER ws1)) C m i j c
     = NHWC_filter op (data (FILTER ws2)) C m i j c) →
  (∀ m, 0 ≤ m < M → get (data (BIAS ws1)) m = get (data (BIAS ws2)) m) →
  ∃ ws1' ws2',
    RunOnDeviceWithOrderNCHW op ws1 = (ws1', inr true)
    ∧ RunOnDeviceWithOrderNHWC op ws2 = (ws2', inr true)
    ∧ dims (OUTPUT ws1') = [N; M; out_h op H; out_w op W]
    ∧ dims (OUTPUT ws2') = [N; out_h op H; out_w op W; M]
    ∧ ∀ n m y x,
        0 ≤ n < N → 0 ≤ m < M → 0 ≤ y < out_h op H → 0 ≤ x < out_w op W →
        ∃ v,
          load (data (OUTPUT ws1'))
               (((n * M + m) * out_h op H + y) * out_w op W + x) = Some v
          ∧ load (data (OUTPUT ws2'))
                 (((n * out_h op H + y) * out_w op W + x) * M + m) = Some v.
Proof.
  intros Hv1 Hv2 HX HF HB. do 2 eexists.
  split; [by apply NCHW_run|]. split; [by apply NHWC_run|].
  destruct Hv1 as [[] _ _ _ _ HY1 _ _ _ _], Hv2 as [_ _ _ _ _ HY2 _ _ _ _].
  split; [done|]. split; [done|].
  intros n m y x Hn Hm Hy Hx. eexists.
  cbn [with_output OUTPUT data].
  rewrite channel_first_output_at, channel_last_output_at by done.
  split; [done|]. rewrite HB by done. do 2 f_equal.
  symmetry. apply contraction_value_ext; [|intros; by apply HF|lia|lia].
  intros h w c Hh Hw Hc. by apply HX.
Qed.

(** C3.  In either entry point, every output element whose
    output-channel index is [m] is the value of the contraction stage at
    that element plus [bias[m]], added once: for every batch index and
    spatial position, in the physical layout of the entry point. *)
Theorem bias_added_once (order : StorageOrder) (op : ConvPoolOpBase)
    (ws : Blobs T) (N C H W M : Z) :
  valid_invocation order op ws N C H W M →
  ∃ ws',
    RunOnDevice order op ws = (ws', inr true)
    ∧ Z.of_nat (length (data (OUTPUT ws'))) = N * out_h op H * out_w op W * M
    ∧ ∀ n y x m,
        0 ≤ n < N → 0 ≤ y < out_h op H → 0 ≤ x < out_w op W → 0 ≤ m < M →
        load (data (OUTPUT ws'))
             (output_index order M (out_h op H) (out_w op W) n y x m)
        = Some (add (contraction_value op (logical_input order ws C H W)
                       (logical_filter order op ws C) H W C n y x m)
                    (get (data (BIAS ws)) m)).
Proof.
  intros Hvalid.
  assert (0 ≤ N * out_h op H * out_w op W * M) as Hsize.
  { destruct Hvalid as [_ _ _ _ _ HY _ _ _ [HYd _]]. rewrite HY in HYd.
    destruct order; cbn [output_shape] in HYd;
      repeat (apply Forall_cons in HYd as [? HYd]);
      repeat apply Z.mul_nonneg_nonneg; done. }
  destruct order; cbn [RunOnDevice output_index logical_input logical_filter];
    eexists.
  - split; [by apply NCHW_run|]. cbn [with_output OUTPUT data].
    split.
    { unfold channel_first_output, tabulate4. rewrite length_tabulate.
      replace (N * M * out_h op H * out_w op W)
        with (N * out_h op H * out_w op W * M) by ring. lia. }
    intros n y x m Hn Hy Hx Hm. by apply channel_first_output_at.
  - split; [by apply NHWC_run|]. cbn [with_output OUTPUT data].
    split.
    { unfold channel_last_output, tabulate4. rewrite length_tabulate. lia. }
    intros n y x m Hn Hy Hx Hm. by apply channel_last_output_at.
Qed.

End Correctness.

(** ** The channel-first orchestrator and the patch extractor *)

Section Orchestrator.
Context {T : Type} {ScalarT : Scalar T}.

Lemma channel_last_blobs_valid op (ws : Blobs T) (N C H W M : Z) :
  valid_invocation NCHW op ws N C H W M →
  valid_invocation NHWC op (channel_last_blobs op ws N C H W M) N C H W M.
Proof.
  intros [Hop HM HX HF HB HY [HXd HXl] [HFd HFl] [HBd HBl] [HYd HYl]].
  rewrite HX in HXd. rewrite HF in HFd. rewrite HY in HYd.
  cbn [input_shape filter_shape output_shape] in *.
  repeat match goal with
         | Hd : Forall _ (_ :: _) |- _ => apply Forall_cons in Hd as [? Hd]
         end.
  split; try done; unfold channel_last_blobs, Tensor_wf, Tensor_size;
    cbn [INPUT FILTER BIAS OUTPUT dims data numel foldr].
  - split; [by repeat constructor|].
    unfold transposed_input. rewrite length_tabulate4 by done. ring.
  - split; [by repeat constructor|].
    rewrite length_tabulate4 by done. ring.
  - split; [by repeat constructor|].
    rewrite length_tabulate4 by done. ring.
Qed.

(** C5.  For every valid channel-first invocation: the filter is
    permuted from [(M, C, kH, kW)] to [(kH, kW, C, M)] and the input from
    [(N, C, H, W)] to [(N, H, W, C)], element for element and with the
    same number of elements; the channel-last entry point, run on the
    permuted tensors, produces the [(N, outH, outW, M)] result
    [Y_tensor]; and the output written into the caller's buffer is
    [Y_tensor] permuted to [(N, M, outH, outW)]. *)
Theorem NCHW_transposes_around_channel_last (op : ConvPoolOpBase)
    (ws : Blobs T) (N C H W M : Z) :
  valid_invocation NCHW op ws N C H W M →
  ∃ filter_tensor X_tensor Y_tensor ws_cl ws',
    (* the filter, (M, C, kH, kW) to (kH, kW, C, M) *)
    materialize (shuffle [2; 3; 1; 0]%nat
                   (TensorMap (data (FILTER ws))
                      [M; C; kernel_h_ op; kernel_w_ op]))
    = Some (TensorMap filter_tensor [kernel_h_ op; kernel_w_ op; C; M])
    ∧ length filter_tensor = length (data (FILTER ws))
    ∧ (∀ m c i j, 0 ≤ m < M → 0 ≤ c < C →
         0 ≤ i < kernel_h_ op → 0 ≤ j < kernel_w_ op →
         at4 filter_tensor (kernel_w_ op) C M i j c m
         = at4 (data (FILTER ws)) C (kernel_h_ op) (kernel_w_ op) m c i j)
    (* the input, (N, C, H, W) to (N, H, W, C) *)
    ∧ materialize (shuffle [0; 2; 3; 1]%nat
                     (TensorMap (data (INPUT ws)) [N; C; H; W]))
      = Some (TensorMap X_tensor [N; H; W; C])
    ∧ length X_tensor = length (data (INPUT ws))
    ∧ (∀ n c h w, 0 ≤ n < N → 0 ≤ c < C → 0 ≤ h < H → 0 ≤ w < W →
         at4 X_tensor H W C n h w c = at4 (data (INPUT ws)) C H W n c h w)
    (* the channel-last path on the permuted tensors *)
    ∧ valid_invocation NHWC op ws_cl N C H W M
    ∧ data (INPUT ws_cl) = X_tensor
    ∧ (∀ m c i j, 0 ≤ m < M → 0 ≤ c < C →
         0 ≤ i < kernel_h_ op → 0 ≤ j < kernel_w_ op →
         NHWC_filter op (data (FILTER ws_cl)) C m i j c
         = at4 filter_tensor (kernel_w_ op) C M i j c m)
    ∧ BIAS ws_cl = BIAS ws
    ∧ RunOnDeviceWithOrderNHWC op ws_cl = (with_output ws_cl Y_tensor, inr true)
    ∧ Z.of_nat (length Y_tensor) = N * out_h op H * out_w op W * M
    (* the result, (N, outH, outW, M) to (N, M, outH, outW) *)
    ∧ RunOnDeviceWithOrderNCHW op ws = (ws', inr true)
    ∧ dims (OUTPUT ws') = [N; M; out_h op H; out_w op W]
    ∧ length (data (OUTPUT ws')) = length Y_tensor
    ∧ (∀ n m y x, 0 ≤ n < N → 0 ≤ m < M →
         0 ≤ y < out_h op H → 0 ≤ x < out_w op W →
         at4 (data (OUTPUT ws')) M (out_h op H) (out_w op W) n m y x
         = at4 Y_tensor (out_h op H) (out_w op W) M n y x m).
Proof.
  intros Hvalid.
  pose proof (channel_last_blobs_valid _ _ _ _ _ _ _ Hvalid) as Hvalid_cl.
  pose proof (NHWC_run _ _ _ _ _ _ _ Hvalid_cl) as Hrun_cl.
  pose proof (NCHW_run _ _ _ _ _ _ _ Hvalid) as Hrun.
  destruct Hvalid as [[] HM HX HF HB HY [HXd HXl] [HFd HFl] [HBd HBl] [HYd HYl]].
  unfold Tensor_size in *.
  rewrite HX in HXd, HXl. rewrite HF in HFd, HFl. rewrite HY in HYd, HYl.
  cbn [input_shape filter_shape output_shape numel foldr] in *.
  repeat match goal with
         | Hd : Forall _ (_ :: _) |- _ => apply Forall_cons in Hd as [? Hd]
         end.
  exists (transposed_filter op (data (FILTER ws)) C M),
    (transposed_input (data (INPUT ws)) N C H W).
  do 3 eexists.
  split.
  { unfold materialize.
    rewrite kernel_shuffle_eval by (done || (rewrite HFl; ring)). done. }
  split.
  { apply Nat2Z.inj. unfold transposed_filter.
    rewrite length_tabulate4, HFl by done. ring. }
  split.
  { intros m c i j Hm Hc Hi Hj. unfold transposed_filter.
    by rewrite at4_tabulate4. }
  split.
  { unfold materialize.
    rewrite input_shuffle_eval by (done || (rewrite HXl; ring)). done. }
  split.
  { apply Nat2Z.inj. unfold transposed_input.
    rewrite length_tabulate4, HXl by done. ring. }
  split.
  { intros n c h w Hn Hc Hh Hw. unfold transposed_input.
    by rewrite at4_tabulate4. }
  split; [exact Hvalid_cl|].
  split; [done|].
  split.
  { intros m c i j Hm Hc Hi Hj.
    unfold NHWC_filter, channel_last_blobs, transposed_filter.
    cbn [FILTER data]. rewrite !at4_tabulate4 by done. done. }
  split; [done|].
  split; [exact Hrun_cl|].
  split.
  { unfold channel_last_output. by rewrite length_tabulate4. }
  split; [exact Hrun|].
  split; [done|].
  cbn [with_output OUTPUT data].
  split.
  { apply Nat2Z.inj. unfold channel_first_output, channel_last_output.
    rewrite !length_tabulate4 by done. ring. }
  intros n m y x Hn Hm Hy Hx.
  unfold channel_first_output, channel_last_output.
  rewrite !at4_tabulate4 by done.
  f_equal.
  apply contraction_value_ext; [| |lia|lia].
  - intros h w c Hh Hw Hc. unfold NHWC_input, NCHW_input, channel_last_blobs.
    cbn [INPUT data]. unfold transposed_input. by rewrite at4_tabulate4.
  - intros i j c Hi Hj Hc. unfold NHWC_filter, channel_last_blobs.
    cbn [FILTER data]. by rewrite at4_tabulate4.
Qed.

(** C6.  For every invocation whose shapes pass validation, whatever
    the amount of padding, every coefficient of the patch matrix is
    obtained without an access outside of the input buffer: a sample
    whose coordinates are outside of the image is zero, any other sample
    is read at an index within the buffer; and the call does not
    fail. *)
Theorem patch_reads_stay_in_bounds (op : ConvPoolOpBase) (ws : Blobs T)
    (N C H W M : Z) :
  valid_invocation NHWC op ws N C H W M →
  (∀ p k,
     0 ≤ p < N * out_h op H * out_w op W →
     0 ≤ k < kernel_h_ op * kernel_w_ op * C →
     let n := p / out_w op W / out_h op H in
     let h := window_h op (p / out_w op W mod out_h op H) (k / C / kernel_w_ op) in
     let w := window_w op (p mod out_w op W) (k / C mod kernel_w_ op) in
     let c := k mod C in
     let index := ((n * H + h) * W + w) * C + c in
     coeff (image_patches op (TensorMap (data (INPUT ws)) [N; H; W; C]))
           (p * (kernel_h_ op * kernel_w_ op * C) + k)
     = Some (if (0 <=? h) && (h <? H) && (0 <=? w) && (w <? W)
             then get (data (INPUT ws)) index else zero)
     ∧ (0 ≤ h < H → 0 ≤ w < W →
        0 ≤ index < Z.of_nat (length (data (INPUT ws)))))
  ∧ ∃ ws', RunOnDeviceWithOrderNHWC op ws = (ws', inr true).
Proof.
  intros Hvalid. split; [|eexists; by apply NHWC_run].
  destruct Hvalid as [[] HM HX HF HB HY [HXd HXl] _ _ [HYd _]].
  unfold Tensor_size in *. rewrite HX in HXd, HXl. rewrite HY in HYd.
  cbn [input_shape output_shape numel foldr] in *.
  repeat match goal with
         | Hd : Forall _ (_ :: _) |- _ => apply Forall_cons in Hd as [? Hd]
         end.
  assert (Z.of_nat (length (data (INPUT ws))) = N * H * W * C) as Hlen
    by (rewrite HXl; ring).
  intros p k Hp Hk. split.
  - rewrite patches_coeff by (done || lia). done.
  - intros Hh Hw. rewrite Hlen.
    destruct (unflat2 k (kernel_h_ op) (kernel_w_ op) C) as (_ & _ & Hc & _);
      [done|lia|lia|].
    assert (0 ≤ N * out_h op H) by (by apply Z.mul_nonneg_nonneg).
    destruct (unflat2 p N (out_h op H) (out_w op W)) as (Hn & _ & _ & _);
      [done..|].
    by apply flat4_range.
Qed.

End Orchestrator.

(** ** Shape validation *)

Section Validation.
Context {T : Type} {ScalarT : Scalar T}.

Ltac check_fails := left; eexists; run_op; reflexivity.

(** Either an enforcement fails, before anything is computed and with
    the blobs as they were, or the shapes of the input, the filter and
    the bias are the ones the entry point expects; in that case a
    mismatch of the output shape is the failure
    [InconsistentOutputSize]. *)
Lemma shape_validation (order : StorageOrder) (op : ConvPoolOpBase) (ws : Blobs T) :
  (∃ check, RunOnDevice order op ws = (ws, inl (InvalidShape check)))
  ∨ (∃ N C H W M rest,
       dims (INPUT ws) = input_shape order N C H W ++ rest
       ∧ dims (FILTER ws) = filter_shape order op M C
       ∧ dims (BIAS ws) = [M]
       ∧ (dims (OUTPUT ws) ≠ output_shape order N M (out_h op H) (out_w op W) →
          RunOnDevice order op ws = (ws, inl InconsistentOutputSize))).
Proof.
  destruct ws as [[xdims xd] [fdims fd] [bdims bd] [ydims yd]].
  destruct xdims as [|x0 [|x1 [|x2 [|x3 rest]]]];
    [destruct order; left; eexists; reflexivity..|].
  destruct order; cbn [RunOnDevice].
  - unfold RunOnDeviceWithOrderNCHW. run_op.
    destruct (Z.eqb_spec 4 (ndim (mkTensor fdims fd))) as [Hr|Hr];
      [|check_fails].
    destruct fdims as [|f0 [|f1 [|f2 [|f3 [|f4 fdims]]]]];
      try (unfold ndim in Hr; cbn [dims length] in Hr; lia).
    run_op.
    destruct (Z.eqb_spec f1 x1) as [->|?]; [|check_fails]. run_op.
    destruct (Z.eqb_spec f2 (kernel_h_ op)) as [->|?]; [|check_fails]. run_op.
    destruct (Z.eqb_spec f3 (kernel_w_ op)) as [->|?]; [|check_fails]. run_op.
    destruct (Z.eqb_spec 1 (ndim (mkTensor bdims bd))) as [Hb|Hb];
      [|check_fails].
    destruct bdims as [|b0 [|b1 bdims]];
      try (unfold ndim in Hb; cbn [dims length] in Hb; lia).
    run_op.
    destruct (Z.eqb_spec b0 f0) as [->|?]; [|check_fails].
    right. exists x0, x1, x2, x3, f0, rest. do 3 (split; [done|]).
    cbn [OUTPUT dims output_shape]. intros Hne.
    unfold SetOutputSize. run_op.
    rewrite decide_False by done. reflexivity.
  - unfold RunOnDeviceWithOrderNHWC. run_op.
    destruct (Z.eqb_spec 4 (ndim (mkTensor fdims fd))) as [Hr|Hr];
      [|check_fails].
    destruct fdims as [|f0 [|f1 [|f2 [|f3 [|f4 fdims]]]]];
      try (unfold ndim in Hr; cbn [dims length] in Hr; lia).
    run_op.
    destruct (Z.eqb_spec f1 (kernel_h_ op)) as [->|?]; [|check_fails]. run_op.
    destruct (Z.eqb_spec f2 (kernel_w_ op)) as [->|?]; [|check_fails]. run_op.
    destruct (Z.eqb_spec f3 x3) as [->|?]; [|check_fails]. run_op.
    destruct (Z.eqb_spec 1 (ndim (mkTensor bdims bd))) as [Hb|Hb];
      [|check_fails].
    destruct bdims as [|b0 [|b1 bdims]];
      try (unfold ndim in Hb; cbn [dims length] in Hb; lia).
    run_op.
    destruct (Z.eqb_spec b0 f0) as [->|?]; [|check_fails].
    right. exists x0, x3, x1, x2, f0, rest. do 3 (split; [done|]).
    cbn [OUTPUT dims output_shape]. intros Hne.
    unfold SetOutputSize. run_op.
    rewrite decide_False by done. reflexivity.
Qed.

(** When the shapes of the input, the filter and the bias pass their
    checks, an output buffer of another shape than the expected one is
    the failure [InconsistentOutputSize]. *)
Lemma output_mismatch_rejected (order : StorageOrder) (op : ConvPoolOpBase)
    (ws : Blobs T) (N C H W M : Z) :
  dims (INPUT ws) = input_shape order N C H W →
  dims (FILTER ws) = filter_shape order op M C →
  dims (BIAS ws) = [M] →
  dims (OUTPUT ws) ≠ output_shape order N M (out_h op H) (out_w op W) →
  RunOnDevice order op ws = (ws, inl InconsistentOutputSize).
Proof.
  intros HX HF HB HY.
  destruct ws as [[xdims xd] [fdims fd] [bdims bd] [ydims yd]].
  cbn [INPUT FILTER BIAS OUTPUT dims] in *. subst xdims fdims bdims.
  destruct order; cbn [RunOnDevice input_shape filter_shape output_shape] in *;
    unfold RunOnDeviceWithOrderNCHW, RunOnDeviceWithOrderNHWC, SetOutputSize;
    run_op; rewrite decide_False by done; reflexivity.
Qed.

(** C4.  An invocation in which the rank of the filter is not 4, the
    rank of the bias is not 1, the channel dimension of the filter
    differs from the channel count of the input, or the length of the
    bias differs from the output-channel count of the filter, fails with
    [InvalidShape]; the blobs, the output buffer among them, are as they
    were. *)
Theorem invalid_shape_rejected (order : StorageOrder) (op : ConvPoolOpBase)
    (ws : Blobs T) :
  length (dims (FILTER ws)) ≠ 4%nat
  ∨ length (dims (BIAS ws)) ≠ 1%nat
  ∨ dims (FILTER ws) !! channel_axis order ≠ dims (INPUT ws) !! channel_axis order
  ∨ dims (BIAS ws) !! 0%nat ≠ dims (FILTER ws) !! 0%nat →
  ∃ check, RunOnDevice order op ws = (ws, inl (InvalidShape check)).
Proof.
  intros Hbad.
  destruct (shape_validation order op ws)
    as [?|(N & C & H & W & M & rest & HX & HF & HB & _)]; [done|].
  exfalso. rewrite HX, HF, HB in Hbad.
  destruct order; cbn in Hbad; destruct Hbad as [?|[?|[?|?]]]; done.
Qed.

(** C9.  An invocation also fails, before anything is computed, when a
    spatial dimension of the filter differs from the configured kernel
    size: dimension 2 or 3 of the filter in the channel-first entry
    point, dimension 1 or 2 in the channel-last one. *)
Theorem kernel_size_mismatch_rejected (order : StorageOrder)
    (op : ConvPoolOpBase) (ws : Blobs T) :
  dims (FILTER ws) !! height_axis order ≠ Some (kernel_h_ op)
  ∨ dims (FILTER ws) !! width_axis order ≠ Some (kernel_w_ op) →
  ∃ check, RunOnDevice order op ws = (ws, inl (InvalidShape check)).
Proof.
  intros Hbad.
  destruct (shape_validation order op ws)
    as [?|(N & C & H & W & M & rest & _ & HF & _)]; [done|].
  exfalso. rewrite HF in Hbad.
  destruct order; cbn in Hbad; destruct Hbad as [?|?]; done.
Qed.

End Validation.

(** ** What an invocation leaves unchanged *)

Section Frame.
Context {T : Type} {ScalarT : Scalar T}.

Lemma preserves_ret {A} (a : A) : preserves (@ret T A a).
Proof. by intros ws. Qed.

Lemma preserves_throw {A} (f : Failure) : preserves (@throw T A f).
Proof. by intros ws. Qed.

Lemma preserves_bind {A B} (c : Op T A) (k : A → Op T B) :
  preserves c → (∀ a, preserves (k a)) → preserves (bind c k).
Proof.
  intros Hc Hk ws. unfold bind.
  specialize (Hc ws). destruct (c ws) as [ws' [f|a]]; [done|].
  specialize (Hk a ws'). cbn [fst] in *.
  destruct Hc as [(? & ? & ?) ?], Hk as [(? & ? & ?) ?].
  repeat split; congruence.
Qed.

Lemma preserves_Input (tag : Blobs T → Tensor T) : preserves (Input tag).
Proof. by intros ws. Qed.

Lemma preserves_Output : preserves (@Output T).
Proof. by intros ws. Qed.

Lemma preserves_store (vals : list T) : preserves (store vals).
Proof. intros ws. unfold store. by case_match. Qed.

Lemma preserves_CAFFE_ENFORCE (cond : bool) (check : ShapeCheck) :
  preserves (@CAFFE_ENFORCE T cond check).
Proof. by destruct cond. Qed.

Lemma preserves_dim32 (t : Tensor T) (i : nat) (f : Failure) :
  preserves (@dim32 T t i f).
Proof. unfold dim32. by case_match. Qed.

Lemma preserves_divide (a b : Z) : preserves (@divide T a b).
Proof. unfold divide. by case_match. Qed.

Lemma preserves_evaluated {A} (r : option A) : preserves (@evaluated T A r).
Proof. by destruct r. Qed.

Create HintDb preserves discriminated.
#[local] Hint Resolve preserves_ret preserves_throw preserves_Input
  preserves_Output preserves_store preserves_CAFFE_ENFORCE preserves_dim32
  preserves_divide preserves_evaluated : preserves.

Ltac preserves_steps :=
  repeat first
    [ solve [auto with preserves]
    | progress cbv zeta
    | apply preserves_bind; [|intros ?]
    | case_match ].

Lemma preserves_SetOutputSize (order : StorageOrder) (op : ConvPoolOpBase)
    (input : Tensor T) (output_channel : Z) :
  preserves (SetOutputSize order op input output_channel).
Proof. unfold SetOutputSize. preserves_steps. Qed.

#[local] Hint Resolve preserves_SetOutputSize : preserves.

Lemma preserves_RunOnDevice (order : StorageOrder) (op : ConvPoolOpBase) :
  preserves (RunOnDevice order op).
Proof.
  destruct order; cbn [RunOnDevice];
    unfold RunOnDeviceWithOrderNCHW, RunOnDeviceWithOrderNHWC;
    preserves_steps.
Qed.

(** C10.  Whether an invocation of either entry point succeeds or fails,
    the input tensor, the filter tensor and the bias vector are as they
    were before the call. *)
Theorem inputs_left_unchanged (order : StorageOrder) (op : ConvPoolOpBase)
    (ws : Blobs T) :
  inputs_unchanged ws (RunOnDevice order op ws).1.
Proof. apply preserves_RunOnDevice. Qed.

(** C7.  The spatial dimensions of a produced output are
    [floor((in + pad_before + pad_after - dilation*(kernel-1) - 1) / stride) + 1];
    an invocation whose output buffer disagrees with them fails, the
    blobs being as they were, and the failure is
    [InconsistentOutputSize] as soon as the shapes of the filter and of
    the bias pass their checks, which come first. *)
Theorem output_size_checked (order : StorageOrder) (op : ConvPoolOpBase)
    (ws : Blobs T) (N C H W : Z) :
  dims (INPUT ws) = input_shape order N C H W →
  let output_height :=
    (H + pad_t_ op + pad_b_ op - dilation_h_ op * (kernel_h_ op - 1) - 1)
    / stride_h_ op + 1 in
  let output_width :=
    (W + pad_l_ op + pad_r_ op - dilation_w_ op * (kernel_w_ op - 1) - 1)
    / stride_w_ op + 1 in
  (∀ ws' b, RunOnDevice order op ws = (ws', inr b) →
     dims (OUTPUT ws') !! height_axis order = Some output_height
     ∧ dims (OUTPUT ws') !! width_axis order = Some output_width)
  ∧ (dims (OUTPUT ws) !! height_axis order ≠ Some output_height
     ∨ dims (OUTPUT ws) !! width_axis order ≠ Some output_width →
     (∃ f, RunOnDevice order op ws = (ws, inl f)
           ∧ (f = InconsistentOutputSize ∨ ∃ check, f = InvalidShape check))
     ∧ ∀ M, dims (FILTER ws) = filter_shape order op M C →
            dims (BIAS ws) = [M] →
            RunOnDevice order op ws = (ws, inl InconsistentOutputSize)).
Proof.
  intros HX output_height output_width.
  change output_height with (out_h op H). change output_width with (out_w op W).
  clear output_height output_width.
  assert (∀ M ds, ds = output_shape order N M (out_h op H) (out_w op W) →
            ds !! height_axis order = Some (out_h op H)
            ∧ ds !! width_axis order = Some (out_w op W)) as Hshape.
  { intros M ds ->. by destruct order. }
  split.
  - intros ws' b Hrun.
    destruct (preserves_RunOnDevice order op ws) as [_ Hdims].
    rewrite Hrun in Hdims. cbn [fst] in Hdims. rewrite Hdims.
    destruct (shape_validation order op ws)
      as [[check Hfail]|(N' & C' & H' & W' & M' & rest & HX' & HF & HB & HY)];
      [congruence|].
    assert (N' = N ∧ C' = C ∧ H' = H ∧ W' = W) as (-> & -> & -> & ->).
    { rewrite HX in HX'. destruct order; cbn in HX'; by simplify_eq. }
    apply (Hshape M').
    destruct (decide (dims (OUTPUT ws)
                      = output_shape order N M' (out_h op H) (out_w op W)))
      as [?|Hne]; [done|].
    rewrite (HY Hne) in Hrun. congruence.
  - intros Hbad.
    assert (∀ M, dims (OUTPUT ws)
                 ≠ output_shape order N M (out_h op H) (out_w op W)) as Hne.
    { intros M Heq. destruct (Hshape M _ Heq). by destruct Hbad. }
    split; [|intros M HF HB; by apply (output_mismatch_rejected _ _ _ N C H W M)].
    destruct (shape_validation order op ws)
      as [[check Hfail]|(N' & C' & H' & W' & M' & rest & HX' & HF & HB & HY)];
      [eauto|].
    assert (N' = N ∧ C' = C ∧ H' = H ∧ W' = W) as (-> & -> & -> & ->).
    { rewrite HX in HX'. destruct order; cbn in HX'; by simplify_eq. }
    eauto.
Qed.

End Frame.

(** ** The filter matrix of the channel-last path *)

Section FilterMatrix.
Context {T : Type} {ScalarT : Scalar T}.

(** C8, as amended.  In the channel-last path the filter supplied by the
    caller, whose physical order is [(M, kH, kW, C)], is first copied,
    transposed, into a temporary buffer of as many elements: element
    [(k, m)] of the copy is element [(m, k)] of the supplied buffer.  It
    is the copy that reshapes directly into the [(kH*kW*C, M)] matrix of
    the contraction, without further permutation. *)
Theorem filter_matrix_is_transposed_copy (op : ConvPoolOpBase)
    (filter : Tensor T) (C M : Z) :
  Z.of_nat (length (data filter)) = M * (kernel_h_ op * kernel_w_ op * C) →
  0 < M → 0 ≤ kernel_h_ op * kernel_w_ op * C →
  ∃ temp matrix,
    temp_filter op filter C M = Some temp
    ∧ contraction_filter_matrix op filter C M = Some matrix
    ∧ length temp = length (data filter)
    ∧ (∀ index, coeff matrix index = load temp index)
    ∧ ∀ k m, 0 ≤ k < kernel_h_ op * kernel_w_ op * C → 0 ≤ m < M →
        coeff matrix (k * M + m)
        = Some (get (data filter) (m * (kernel_h_ op * kernel_w_ op * C) + k)).
Proof.
  intros Hlen HM HK. do 2 eexists.
  unfold contraction_filter_matrix.
  rewrite temp_filter_eval by done. cbn [mbind option_bind].
  split; [done|]. split; [done|].
  split; [rewrite length_tabulate; lia|].
  split; [done|].
  intros k m Hk Hm. cbn [reshape TensorMap coeff].
  rewrite load_tabulate by (rewrite (Z.mul_comm M); by apply flat_range).
  by rewrite flat_mod, flat_div.
Qed.

End FilterMatrix.

(** ** Witnesses on the concrete invocations *)

(** Validity of a concrete invocation, by computation. *)
Ltac solve_valid :=
  split;
    [ split; cbn; lia
    | lia
    | reflexivity ..
    | split; [repeat constructor; lia | reflexivity]
    | split; [repeat constructor; lia | reflexivity]
    | split; [repeat constructor; lia | reflexivity]
    | split; [repeat constructor; lia | reflexivity] ].

Lemma NHWC_output_is_convolution_witness :
  valid_invocation NHWC op_3x3 blobs_3x3 1 1 3 3 1
  ∧ ∃ ws',
      RunOnDeviceWithOrderNHWC op_3x3 blobs_3x3 = (ws', inr true)
      ∧ dims (OUTPUT ws') = [1; out_h op_3x3 3; out_w op_3x3 3; 1]
      ∧ ∀ n y x m,
          0 ≤ n < 1 → 0 ≤ y < out_h op_3x3 3 → 0 ≤ x < out_w op_3x3 3 →
          0 ≤ m < 1 →
          load (data (OUTPUT ws'))
               (((n * out_h op_3x3 3 + y) * out_w op_3x3 3 + x) * 1 + m)
          = Some (conv_value op_3x3
                    (NHWC_input (data (INPUT blobs_3x3)) 3 3 1)
                    (NHWC_filter op_3x3 (data (FILTER blobs_3x3)) 1)
                    (get (data (BIAS blobs_3x3))) 3 3 1 n y x m).
Proof.
  assert (valid_invocation NHWC op_3x3 blobs_3x3 1 1 3 3 1) as Hvalid
    by solve_valid.
  split; [exact Hvalid|].
  exact (NHWC_output_is_convolution op_3x3 blobs_3x3 1 1 3 3 1 Hvalid).
Defined.

Lemma layouts_agree_witness :
  valid_invocation NCHW op_1x1 blobs_NCHW 1 2 1 2 2
  ∧ valid_invocation NHWC op_1x1 blobs_NHWC 1 2 1 2 2
  ∧ ∃ ws1' ws2',
      RunOnDeviceWithOrderNCHW op_1x1 blobs_NCHW = (ws1', inr true)
      ∧ RunOnDeviceWithOrderNHWC op_1x1 blobs_NHWC = (ws2', inr true)
      ∧ dims (OUTPUT ws1') = [1; 2; out_h op_1x1 1; out_w op_1x1 2]
      ∧ dims (OUTPUT ws2') = [1; out_h op_1x1 1; out_w op_1x1 2; 2]
      ∧ ∀ n m y x,
          0 ≤ n < 1 → 0 ≤ m < 2 → 0 ≤ y < out_h op_1x1 1 → 0 ≤ x < out_w op_1x1 2 →
          ∃ v,
            load (data (OUTPUT ws1'))
                 (((n * 2 + m) * out_h op_1x1 1 + y) * out_w op_1x1 2 + x) = Some v
            ∧ load (data (OUTPUT ws2'))
                   (((n * out_h op_1x1 1 + y) * out_w op_1x1 2 + x) * 2 + m) = Some v.
Proof.
  assert (valid_invocation NCHW op_1x1 blobs_NCHW 1 2 1 2 2) as Hv1 by solve_valid.
  assert (valid_invocation NHWC op_1x1 blobs_NHWC 1 2 1 2 2) as Hv2 by solve_valid.
  split; [exact Hv1|]. split; [exact Hv2|].
  apply (layouts_agree op_1x1 blobs_NCHW blobs_NHWC 1 2 1 2 2 Hv1 Hv2).
  - intros n c h w Hn Hc Hh Hw.
    assert (n = 0) as -> by lia. assert (h = 0) as -> by lia.
    assert (c = 0 ∨ c = 1) as [-> | ->] by lia;
      assert (w = 0 ∨ w = 1) as [-> | ->] by lia; reflexivity.
  - intros m c i j Hm Hc Hi Hj.
    assert (i = 0) as -> by (cbn in Hi; lia).
    assert (j = 0) as -> by (cbn in Hj; lia).
    assert (m = 0 ∨ m = 1) as [-> | ->] by lia;
      assert (c = 0 ∨ c = 1) as [-> | ->] by lia; reflexivity.
  - intros m Hm. reflexivity.
Defined.

Lemma bias_added_once_witness :
  valid_invocation NCHW op_1x1 blobs_NCHW 1 2 1 2 2
  ∧ ∃ ws',
      RunOnDevice NCHW op_1x1 blobs_NCHW = (ws', inr true)
      ∧ Z.of_nat (length (data (OUTPUT ws')))
        = 1 * out_h op_1x1 1 * out_w op_1x1 2 * 2
      ∧ ∀ n y x m,
          0 ≤ n < 1 → 0 ≤ y < out_h op_1x1 1 → 0 ≤ x < out_w op_1x1 2 →
          0 ≤ m < 2 →
          load (data (OUTPUT ws'))
               (output_index NCHW 2 (out_h op_1x1 1) (out_w op_1x1 2) n y x m)
          = Some (add (contraction_value op_1x1
                         (logical_input NCHW blobs_NCHW 2 1 2)
                         (logical_filter NCHW op_1x1 blobs_NCHW 2) 1 2 2 n y x m)
                      (get (data (BIAS blobs_NCHW)) m)).
Proof.
  assert (valid_invocation NCHW op_1x1 blobs_NCHW 1 2 1 2 2) as Hvalid
    by solve_valid.
  split; [exact Hvalid|].
  exact (bias_added_once NCHW op_1x1 blobs_NCHW 1 2 1 2 2 Hvalid).
Defined.

Lemma invalid_shape_rejected_witness :
  length (dims (FILTER blobs_bad_filter)) ≠ 4%nat
  ∧ ∃ check,
      RunOnDevice NHWC op_3x3 blobs_bad_filter
      = (blobs_bad_filter, inl (InvalidShape check)).
Proof.
  assert (length (dims (FILTER blobs_bad_filter)) ≠ 4%nat) as Hrank
    by (cbn; lia).
  split; [exact Hrank|].
  exact (invalid_shape_rejected NHWC op_3x3 blobs_bad_filter (or_introl Hrank)).
Defined.

Lemma kernel_size_mismatch_rejected_witness :
  dims (FILTER blobs_3x3) !! height_axis NHWC ≠ Some (kernel_h_ op_1x1)
  ∧ ∃ check,
      RunOnDevice NHWC op_1x1 blobs_3x3 = (blobs_3x3, inl (InvalidShape check)).
Proof.
  assert (dims (FILTER blobs_3x3) !! height_axis NHWC ≠ Some (kernel_h_ op_1x1))
    as Hkernel by (cbn; intros [=]).
  split; [exact Hkernel|].
  exact (kernel_size_mismatch_rejected NHWC op_1x1 blobs_3x3 (or_introl Hkernel)).
Defined.

Lemma NCHW_transposes_around_channel_last_witness :
  valid_invocation NCHW op_1x1 blobs_NCHW 1 2 1 2 2
  ∧ ∃ ws', RunOnDeviceWithOrderNCHW op_1x1 blobs_NCHW = (ws', inr true)
           ∧ dims (OUTPUT ws') = [1; 2; out_h op_1x1 1; out_w op_1x1 2].
Proof.
  assert (valid_invocation NCHW op_1x1 blobs_NCHW 1 2 1 2 2) as Hvalid
    by solve_valid.
  split; [exact Hvalid|].
  destruct (NCHW_transposes_around_channel_last op_1x1 blobs_NCHW 1 2 1 2 2 Hvalid)
    as (filter_tensor & X_tensor & Y_tensor & ws_cl & ws' & Hall).
  exists ws'. split; apply Hall.
Defined.

Lemma patch_reads_stay_in_bounds_witness :
  valid_invocation NHWC op_padded blobs_padded 1 1 1 1 1
  ∧ ∃ ws', RunOnDeviceWithOrderNHWC op_padded blobs_padded = (ws', inr true).
Proof.
  assert (valid_invocation NHWC op_padded blobs_padded 1 1 1 1 1) as Hvalid
    by solve_valid.
  split; [exact Hvalid|].
  exact (proj2 (patch_reads_stay_in_bounds op_padded blobs_padded 1 1 1 1 1 Hvalid)).
Defined.

Lemma output_size_checked_witness :
  dims (INPUT blobs_bad_output) = input_shape NHWC 1 1 3 3
  ∧ RunOnDevice NHWC op_3x3 blobs_bad_output
    = (blobs_bad_output, inl InconsistentOutputSize).
Proof.
  assert (dims (INPUT blobs_bad_output) = input_shape NHWC 1 1 3 3) as HX
    by reflexivity.
  split; [exact HX|].
  refine (proj2 (proj2 (output_size_checked NHWC op_3x3 blobs_bad_output 1 1 3 3 HX)
                   (or_introl _)) 1 eq_refl eq_refl).
  cbn. intros [=].
Defined.

Lemma filter_matrix_is_transposed_copy_witness :
  Z.of_nat (length (data filter_2x2))
  = 2 * (kernel_h_ op_1x1 * kernel_w_ op_1x1 * 2)
  ∧ ∃ temp matrix,
      temp_filter op_1x1 filter_2x2 2 2 = Some temp
      ∧ contraction_filter_matrix op_1x1 filter_2x2 2 2 = Some matrix
      ∧ length temp = length (data filter_2x2)
      ∧ (∀ index, coeff matrix index = load temp index)
      ∧ ∀ k m, 0 ≤ k < kernel_h_ op_1x1 * kernel_w_ op_1x1 * 2 → 0 ≤ m < 2 →
          coeff matrix (k * 2 + m)
          = Some (get (data filter_2x2)
                    (m * (kernel_h_ op_1x1 * kernel_w_ op_1x1 * 2) + k)).
Proof.
  assert (Z.of_nat (length (data filter_2x2))
          = 2 * (kernel_h_ op_1x1 * kernel_w_ op_1x1 * 2)) as Hlen by reflexivity.
  split; [exact Hlen|].
  apply (filter_matrix_is_transposed_copy op_1x1 filter_2x2 2 2 Hlen).
  - lia.
  - cbn. lia.
Defined.

(** C8, as the specification words it, fails: for a filter of two
    output channels and two input channels, the matrix given to the
    contraction is not the supplied buffer reshaped as it is.  The
    supplied buffer is [1; 2; 3; 4]; the contraction reads [1; 3; 2; 4]. *)
Lemma filter_is_not_reshaped_directly :
  ∃ matrix,
    contraction_filter_matrix op_1x1 filter_2x2 2 2 = Some matrix
    ∧ coeff matrix 1 = Some 3
    ∧ coeff (filter_matrix_direct op_1x1 filter_2x2 2 2) 1 = Some 2
    ∧ coeff matrix 1 ≠ coeff (filter_matrix_direct op_1x1 filter_2x2 2 2) 1.
Proof.
  eexists. split; [reflexivity|].
  split; [reflexivity|]. split; [reflexivity|]. intros [=].
Qed.

(** The padding scenario of the specification: a 3x3 image and an
    all-ones 3x3 kernel with padding 1; a corner of the output sums the
    four cells in bounds, the centre sums the nine, each plus the bias. *)
Example padding_scenario :
  RunOnDeviceWithOrderNHWC op_3x3 blobs_3x3
  = (with_output blobs_3x3 [112; 121; 116; 127; 145; 133; 124; 139; 128],
     inr true).
Proof. reflexivity. Qed.

(** The two layouts on the same tensors. *)
Example layouts_scenario :
  RunOnDeviceWithOrderNCHW op_1x1 blobs_NCHW
  = (with_output blobs_NCHW [75; 105; 156; 226], inr true)
  ∧ RunOnDeviceWithOrderNHWC op_1x1 blobs_NHWC
    = (with_output blobs_NHWC [75; 156; 105; 226], inr true).
Proof. split; reflexivity. Qed.

(** * Further properties of the operator *)

Section Elements.
Context {T : Type} {ScalarT : Scalar T}.

(** The run of either entry point on a valid invocation, element by
    element. *)
Lemma RunOnDevice_elements (order : StorageOrder) (op : ConvPoolOpBase)
    (ws : Blobs T) (N C H W M : Z) :
  valid_invocation order op ws N C H W M →
  ∃ out,
    RunOnDevice order op ws = (with_output ws out, inr true)
    ∧ ∀ n y x m,
        0 ≤ n < N → 0 ≤ y < out_h op H → 0 ≤ x < out_w op W → 0 ≤ m < M →
        load out (output_index order M (out_h op H) (out_w op W) n y x m)
        = Some (add (contraction_value op (logical_input order ws C H W)
                       (logical_filter order op ws C) H W C n y x m)
                    (get (data (BIAS ws)) m)).
Proof.
  intros Hvalid.
  destruct order; cbn [RunOnDevice output_index logical_input logical_filter];
    eexists.
  - split; [by apply NCHW_run|].
    intros n y x m Hn Hy Hx Hm. by apply channel_first_output_at.
  - split; [by apply NHWC_run|].
    intros n y x m Hn Hy Hx Hm. by apply channel_last_output_at.
Qed.

(** The dimensions that a valid invocation fixes are non-negative. *)
Lemma valid_invocation_nonneg (order : StorageOrder) (op : ConvPoolOpBase)
    (ws : Blobs T) (N C H W M : Z) :
  valid_invocation order op ws N C H W M →
  0 ≤ N ∧ 0 ≤ C ∧ 0 ≤ H ∧ 0 ≤ W ∧ 0 ≤ out_h op H ∧ 0 ≤ out_w op W.
Proof.
  intros [_ _ HX _ _ HY [HXd _] _ _ [HYd _]].
  rewrite HX in HXd. rewrite HY in HYd.
  destruct order; cbn [input_shape output_shape] in *;
    repeat match goal with
           | Hd : Forall _ (_ :: _) |- _ => apply Forall_cons in Hd as [? Hd]
           end; done.
Qed.

(** X1.  With a 1x1 kernel, stride 1 and no padding the output has the
    spatial size of the input, and the operator is a matrix product
    across the channels of each position, plus the bias. *)
Theorem pointwise_convolution (order : StorageOrder) (op : ConvPoolOpBase)
    (ws : Blobs T) (N C H W M : Z) :
  valid_invocation order op ws N C H W M →
  kernel_h_ op = 1 → kernel_w_ op = 1 →
  stride_h_ op = 1 → stride_w_ op = 1 →
  pad_t_ op = 0 → pad_l_ op = 0 → pad_b_ op = 0 → pad_r_ op = 0 →
  out_h op H = H ∧ out_w op W = W
  ∧ ∃ out,
      RunOnDevice order op ws = (with_output ws out, inr true)
      ∧ ∀ n h w m,
          0 ≤ n < N → 0 ≤ h < H → 0 ≤ w < W → 0 ≤ m < M →
          load out (output_index order M H W n h w m)
          = Some (add (sum_below C (λ c,
                         mul (logical_input order ws C H W n h w c)
                             (logical_filter order op ws C m 0 0 c)))
                      (get (data (BIAS ws)) m)).
Proof.
  intros Hvalid Hkh Hkw Hsh Hsw Hpt Hpl Hpb Hpr.
  assert (out_h op H = H) as Hoh.
  { unfold out_h, output_dim. rewrite Hkh, Hsh, Hpt, Hpb, Z.div_1_r. lia. }
  assert (out_w op W = W) as How.
  { unfold out_w, output_dim. rewrite Hkw, Hsw, Hpl, Hpr, Z.div_1_r. lia. }
  split; [done|]. split; [done|].
  destruct (RunOnDevice_elements order op ws N C H W M Hvalid) as (out & Hrun & Hout).
  exists out. split; [done|].
  intros n h w m Hn Hh Hw Hm.
  rewrite Hoh, How in Hout. rewrite Hout by done. do 2 f_equal.
  unfold contraction_value. rewrite Hkh, Hkw.
  replace (1 * 1 * C) with C by lia.
  apply sum_below_ext. intros k Hk. cbv zeta.
  rewrite Z.div_1_r, Z.mod_1_r, (Z.div_small k C), (Z.mod_small k C) by done.
  f_equal. unfold sample, window_h, window_w.
  rewrite Hsh, Hsw, Hpt, Hpl.
  replace (h * 1 - 0 + 0 * dilation_h_ op) with h by lia.
  replace (w * 1 - 0 + 0 * dilation_w_ op) with w by lia.
  destruct (Z.leb_spec 0 h), (Z.ltb_spec h H), (Z.leb_spec 0 w),
    (Z.ltb_spec w W); try lia. done.
Qed.

(** The contraction of an output position depends on the input only at
    the coordinates that its window samples within the image, and on
    the filter only through the output channel at hand. *)
Lemma contraction_value_window_ext (op : ConvPoolOpBase)
    (Xat Xat' Fat Fat' : Z → Z → Z → Z → T) (H W C n y x m : Z) :
  0 ≤ kernel_h_ op → 0 ≤ kernel_w_ op →
  (∀ i j c, 0 ≤ i < kernel_h_ op → 0 ≤ j < kernel_w_ op → 0 ≤ c < C →
     0 ≤ window_h op y i < H → 0 ≤ window_w op x j < W →
     Xat n (window_h op y i) (window_w op x j) c
     = Xat' n (window_h op y i) (window_w op x j) c) →
  (∀ i j c, 0 ≤ i < kernel_h_ op → 0 ≤ j < kernel_w_ op → 0 ≤ c < C →
     Fat m i j c = Fat' m i j c) →
  contraction_value op Xat Fat H W C n y x m
  = contraction_value op Xat' Fat' H W C n y x m.
Proof.
  intros Hkh Hkw HX HF. unfold contraction_value.
  apply sum_below_ext. intros k Hk. cbv zeta.
  destruct (unflat2 k (kernel_h_ op) (kernel_w_ op) C) as (Hi & Hj & Hc & _);
    [done..|].
  f_equal; [|by apply HF].
  apply sample_ext. intros Hh Hw. by apply HX.
Qed.

(** X2.  An output element [(n, y, x, m)] depends only on the input
    elements of batch [n] that its window samples within the image, on
    the slice [m] of the filter and on [bias[m]]: two valid invocations
    that agree there agree on that element, whatever else differs. *)
Theorem output_element_footprint (order : StorageOrder) (op : ConvPoolOpBase)
    (ws1 ws2 : Blobs T) (N C H W M n y x m : Z) :
  valid_invocation order op ws1 N C H W M →
  valid_invocation order op ws2 N C H W M →
  0 ≤ n < N → 0 ≤ y < out_h op H → 0 ≤ x < out_w op W → 0 ≤ m < M →
  (∀ i j c, 0 ≤ i < kernel_h_ op → 0 ≤ j < kernel_w_ op → 0 ≤ c < C →
     0 ≤ window_h op y i < H → 0 ≤ window_w op x j < W →
     logical_input order ws1 C H W n (window_h op y i) (window_w op x j) c
     = logical_input order ws2 C H W n (window_h op y i) (window_w op x j) c) →
  (∀ i j c, 0 ≤ i < kernel_h_ op → 0 ≤ j < kernel_w_ op → 0 ≤ c < C →
     logical_filter order op ws1 C m i j c
     = logical_filter order op ws2 C m i j c) →
  get (data (BIAS ws1)) m = get (data (BIAS ws2)) m →
  ∃ out1 out2 v,
    RunOnDevice order op ws1 = (with_output ws1 out1, inr true)
    ∧ RunOnDevice order op ws2 = (with_output ws2 out2, inr true)
    ∧ load out1 (output_index order M (out_h op H) (out_w op W) n y x m) = Some v
    ∧ load out2 (output_index order M (out_h op H) (out_w op W) n y x m) = Some v.
Proof.
  intros Hv1 Hv2 Hn Hy Hx Hm HX HF HB.
  destruct (RunOnDevice_elements order op ws1 N C H W M Hv1) as (out1 & Hrun1 & Hout1).
  destruct (RunOnDevice_elements order op ws2 N C H W M Hv2) as (out2 & Hrun2 & Hout2).
  exists out1, out2. eexists.
  split; [done|]. split; [done|].
  rewrite Hout1, Hout2 by done. split; [done|].
  rewrite HB. do 2 f_equal. symmetry.
  destruct Hv1 as [[] _ _ _ _ _ _ _ _ _].
  apply contraction_value_window_ext; [lia|lia|done|done].
Qed.

(** X3.  A successful call overwrites the whole output buffer: the
    result does not depend on what the buffer held before the call. *)
Theorem output_overwritten (order : StorageOrder) (op : ConvPoolOpBase)
    (ws : Blobs T) (N C H W M : Z) (previous : list T) :
  valid_invocation order op ws N C H W M →
  length previous = length (data (OUTPUT ws)) →
  ∃ out,
    RunOnDevice order op ws = (with_output ws out, inr true)
    ∧ RunOnDevice order op (with_output ws previous)
      = (with_output ws out, inr true)
    ∧ Z.of_nat (length out) = N * out_h op H * out_w op W * M.
Proof.
  intros Hvalid Hlen.
  pose proof (valid_invocation_nonneg _ _ _ _ _ _ _ _ Hvalid)
    as (HN & HC & HH & HW & Hoh & How).
  assert (valid_invocation order op (with_output ws previous) N C H W M) as Hvalid'.
  { destruct Hvalid as [Hop HM HX HF HB HY HXw HFw HBw [HYd HYl]].
    split; try done. split; [done|].
    unfold Tensor_size in *. cbn [with_output OUTPUT dims data].
    by rewrite Hlen. }
  assert (0 ≤ M) by (destruct Hvalid; lia).
  destruct order; cbn [RunOnDevice]; eexists.
  - rewrite (NCHW_run op ws N C H W M) by done.
    rewrite (NCHW_run op (with_output ws previous) N C H W M) by done.
    split; [done|]. split; [done|].
    unfold channel_first_output. rewrite length_tabulate4 by done. ring.
  - rewrite (NHWC_run op ws N C H W M) by done.
    rewrite (NHWC_run op (with_output ws previous) N C H W M) by done.
    split; [done|]. split; [done|].
    unfold channel_last_output. by rewrite length_tabulate4.
Qed.

End Elements.

Section ZeroFilter.
Context {T : Type} {ScalarT : Scalar T} {LawsT : ScalarLaws T}.

Lemma sum_nat_zero (n : nat) (f : Z → T) :
  (∀ k, 0 ≤ k < Z.of_nat n → f k = zero) → sum_nat n f = zero.
Proof.
  induction n as [|n IH]; intros Hf; [done|].
  cbn [sum_nat]. rewrite IH by (intros k Hk; apply Hf; lia).
  rewrite Hf by lia. apply scalar_add_zero_l.
Qed.

(** X4.  With a filter whose elements are all zero, and in exact
    arithmetic where a product by zero is zero, every output element is
    the bias of its output channel. *)
Theorem zero_filter_gives_bias (order : StorageOrder) (op : ConvPoolOpBase)
    (ws : Blobs T) (N C H W M : Z) :
  (∀ a : T, mul a zero = zero) →
  valid_invocation order op ws N C H W M →
  (∀ index, get (data (FILTER ws)) index = zero) →
  ∃ out,
    RunOnDevice order op ws = (with_output ws out, inr true)
    ∧ ∀ n y x m,
        0 ≤ n < N → 0 ≤ y < out_h op H → 0 ≤ x < out_w op W → 0 ≤ m < M →
        load out (output_index order M (out_h op H) (out_w op W) n y x m)
        = Some (get (data (BIAS ws)) m).
Proof.
  intros Hmul Hvalid Hzero.
  destruct (RunOnDevice_elements order op ws N C H W M Hvalid) as (out & Hrun & Hout).
  exists out. split; [done|].
  intros n y x m Hn Hy Hx Hm. rewrite Hout by done. f_equal.
  rewrite <- (scalar_add_zero_l (get (data (BIAS ws)) m)) at 2. f_equal.
  unfold contraction_value, sum_below. apply sum_nat_zero. intros k Hk.
  cbv zeta.
  assert (∀ i j c, logical_filter order op ws C m i j c = zero) as ->;
    [|apply Hmul].
  intros i j c. destruct order; cbn [logical_filter];
    unfold NCHW_filter, NHWC_filter, at4; apply Hzero.
Qed.

End ZeroFilter.

Section Edges.
Context {T : Type} {ScalarT : Scalar T}.

(** An expression without coefficients evaluates to the empty buffer. *)
Lemma evalTensor_empty (e : TensorEvaluator T) :
  numel (dimensions e) = 0 → evalTensor e = Some [].
Proof. intros Hn. unfold evalTensor. by rewrite Hn. Qed.

(** X5.  When the filter has no output channel (M = 0) and every shape
    agrees, the checks pass and the call fails on the division
    [Y->size() / M], before anything is written. *)
Theorem no_output_channel_divides_by_zero (order : StorageOrder)
    (op : ConvPoolOpBase) (ws : Blobs T) (N C H W : Z) :
  dims (INPUT ws) = input_shape order N C H W →
  dims (FILTER ws) = filter_shape order op 0 C →
  dims (BIAS ws) = [0] →
  dims (OUTPUT ws) = output_shape order N 0 (out_h op H) (out_w op W) →
  Tensor_wf (INPUT ws) →
  RunOnDevice order op ws = (ws, inl DivideByZero).
Proof.
  intros HX HF HB HY [HXd HXl].
  destruct ws as [[xdims xd] [fdims fd] [bdims bd] [ydims yd]].
  unfold Tensor_size in *. cbn [INPUT FILTER BIAS OUTPUT dims data] in *.
  subst xdims fdims bdims ydims.
  destruct order; cbn [RunOnDevice input_shape filter_shape output_shape] in *;
    cbn [numel foldr] in HXl;
    repeat match goal with
           | Hd : Forall _ (_ :: _) |- _ => apply Forall_cons in Hd as [? Hd]
           end.
  - unfold RunOnDeviceWithOrderNCHW, SetOutputSize. run_op.
    rewrite decide_True by done. run_op.
    unfold materialize.
    rewrite evalTensor_empty by (cbn; lia).
    rewrite input_shuffle_eval by (done || (rewrite HXl; ring)).
    cbn [mbind option_bind]. run_op.
    unfold divide. run_op. reflexivity.
  - unfold RunOnDeviceWithOrderNHWC, SetOutputSize. run_op.
    rewrite decide_True by done. run_op.
    unfold temp_filter, evalArray.
    cbn [transpose EigenArrayMap rows cols]. rewrite Z.mul_0_l.
    cbn [Z.to_nat seq mapM]. run_op.
    unfold divide. run_op. reflexivity.
Qed.

(** A buffer is the table of its elements. *)
Lemma tabulate_get (buf : list T) (n : Z) :
  Z.of_nat (length buf) = n → tabulate n (get buf) = buf.
Proof.
  intros Hlen. apply list_eq. intros i.
  destruct (decide (i < length buf)%nat) as [Hi|Hi].
  - unfold tabulate. rewrite list_lookup_fmap, lookup_seq_lt by lia.
    cbn [fmap option_fmap option_map Nat.add]. unfold get, load.
    destruct (Z.leb_spec 0 (Z.of_nat i)); [|lia].
    rewrite Nat2Z.id.
    destruct (lookup_lt_is_Some_2 buf i Hi) as [v Hv]. by rewrite Hv.
  - rewrite (lookup_ge_None_2 buf) by lia.
    apply lookup_ge_None_2. rewrite length_tabulate. lia.
Qed.

Lemma tabulate4_at4 (buf : list T) (d0 d1 d2 d3 : Z) :
  Z.of_nat (length buf) = d0 * d1 * d2 * d3 →
  0 ≤ d0 → 0 ≤ d1 → 0 ≤ d2 →
  tabulate4 d0 d1 d2 d3 (at4 buf d1 d2 d3) = buf.
Proof.
  intros Hlen Hd0 Hd1 Hd2.
  rewrite <- (tabulate_get buf (d0 * d1 * d2 * d3)) at 2 by done.
  apply tabulate_ext. intros q Hq. unfold at4. f_equal.
  assert (0 ≤ d0 * d1) by (by apply Z.mul_nonneg_nonneg).
  destruct (unflat2 q (d0 * d1) d2 d3) as (Hq2 & _ & _ & Eq); [done..|].
  destruct (unflat (q / d3 / d2) d0 d1) as (_ & _ & Eq2); [done|nia|].
  rewrite Eq at 5. rewrite Eq2 at 3. done.
Qed.

(** X6.  The last transpose of the channel-first path undoes the
    transpose of its input: a channel-first buffer shuffled by
    [input_shuffles] and then by [output_shuffles] is the buffer itself,
    so the two layout conversions lose, duplicate and move nothing. *)
Theorem output_shuffle_inverts_input_shuffle (xd : list T) (N C H W : Z) :
  Z.of_nat (length xd) = N * C * H * W →
  0 ≤ N → 0 ≤ C → 0 ≤ H → 0 ≤ W →
  ∃ X_tensor,
    evalTensor (shuffle [0; 2; 3; 1]%nat (TensorMap xd [N; C; H; W]))
    = Some X_tensor
    ∧ length X_tensor = length xd
    ∧ evalTensor (shuffle [0; 3; 1; 2]%nat (TensorMap X_tensor [N; H; W; C]))
      = Some xd.
Proof.
  intros Hlen HN HC HH HW.
  exists (transposed_input xd N C H W).
  assert (Z.of_nat (length (transposed_input xd N C H W)) = N * H * W * C)
    as Hlen' by (by apply length_tabulate4).
  split; [by apply input_shuffle_eval|].
  split; [apply Nat2Z.inj; rewrite Hlen', Hlen; ring|].
  rewrite output_shuffle_eval by done. f_equal.
  unfold transposed_output.
  transitivity (tabulate4 N C H W (at4 xd C H W));
    [|by apply tabulate4_at4].
  apply tabulate4_ext; [done..|]. intros n c h w Hn Hc Hh Hw.
  unfold transposed_input. by rewrite at4_tabulate4.
Qed.

(** X7.  The reshapes of the pipeline keep the number of coefficients:
    the patch tensor that Eigen extracts has as many coefficients as the
    [(Y->size() / M) x (kernel_h * kernel_w * C)] matrix it is reshaped
    to, and the product of the contraction as many as the output. *)
Theorem reshapes_keep_size (order : StorageOrder) (op : ConvPoolOpBase)
    (ws : Blobs T) (N C H W M : Z) (xd : list T) :
  valid_invocation order op ws N C H W M →
  let Y_size_M := Tensor_size (OUTPUT ws) / M in
  let pre_contract_dims := [Y_size_M; kernel_h_ op * kernel_w_ op * C] in
  numel (dimensions (image_patches op (TensorMap xd [N; H; W; C])))
  = numel pre_contract_dims
  ∧ numel [Y_size_M; M] = Tensor_size (OUTPUT ws)
  ∧ Y_size_M = N * out_h op H * out_w op W.
Proof.
  intros [[] HM _ _ _ HY _ _ _ _] Y_size_M pre_contract_dims.
  assert (Y_size_M = N * out_h op H * out_w op W) as HP.
  { unfold Y_size_M, Tensor_size. rewrite HY.
    destruct order; cbn [output_shape numel foldr].
    - replace (N * (M * (out_h op H * (out_w op W * 1))))
        with (N * out_h op H * out_w op W * M) by ring.
      apply Z.div_mul. lia.
    - replace (N * (out_h op H * (out_w op W * (M * 1))))
        with (N * out_h op H * out_w op W * M) by ring.
      apply Z.div_mul. lia. }
  split; [|split; [|done]].
  - unfold pre_contract_dims. rewrite HP.
    unfold image_patches, extract_image_patches.
    cbn [dimensions TensorMap nth numel foldr].
    rewrite !eigen_output_size by lia.
    change (output_dim H _ _ _ _ _) with (out_h op H).
    change (output_dim W _ _ _ _ _) with (out_w op W). ring.
  - rewrite HP. unfold Tensor_size. rewrite HY.
    destruct order; cbn [output_shape numel foldr]; ring.
Qed.

End Edges.

Section CheckOrder.
Context {T : Type} {ScalarT : Scalar T}.

Ltac reported := run_op; reflexivity.

(** X8.  The shape checks are performed in the order of the source and
    the first one that fails is the one reported: the rank of the
    input, the rank of the filter, then the channel count before the
    kernel size in the channel-first entry point and after it in the
    channel-last one, then the rank and the length of the bias.  The
    blobs are as they were. *)
Theorem first_failed_check_is_reported (order : StorageOrder)
    (op : ConvPoolOpBase) (ws : Blobs T) (check : ShapeCheck) :
  first_failed_check order op ws = Some check →
  RunOnDevice order op ws = (ws, inl (InvalidShape check)).
Proof.
  destruct ws as [[xdims xd] [fdims fd] [bdims bd] [ydims yd]].
  unfold first_failed_check. cbn [INPUT FILTER BIAS dims].
  destruct xdims as [|x0 [|x1 [|x2 [|x3 rest]]]];
    try (intros [= <-]; by destruct order).
  change (length (x0 :: x1 :: x2 :: x3 :: rest) <? 4)%nat with false.
  cbn match.
  destruct fdims as [|f0 [|f1 [|f2 [|f3 [|f4 fdims]]]]];
    try (intros [= <-]; by destruct order).
  2:{ change (negb (length (f0 :: f1 :: f2 :: f3 :: f4 :: fdims) =? 4)%nat)
        with true.
      intros [= <-].
      destruct order; cbn [RunOnDevice];
        unfold RunOnDeviceWithOrderNCHW, RunOnDeviceWithOrderNHWC; run_op;
        (destruct (Z.eqb_spec 4 (ndim (mkTensor (f0 :: f1 :: f2 :: f3 :: f4 :: fdims) fd)))
           as [Hr|Hr];
         [unfold ndim in Hr; cbn [dims length] in Hr; lia|reported]). }
  change (negb (length [f0; f1; f2; f3] =? 4)%nat) with false.
  cbn match. cbn [lookup list_lookup].
  destruct order; cbn [RunOnDevice];
    unfold RunOnDeviceWithOrderNCHW, RunOnDeviceWithOrderNHWC; run_op.
  - destruct (Z.eqb_spec f1 x1) as [->|?];
      [rewrite bool_decide_eq_true_2 by done
      |rewrite bool_decide_eq_false_2 by congruence; intros [= <-]; reported].
    destruct (Z.eqb_spec f2 (kernel_h_ op)) as [->|?];
      [rewrite bool_decide_eq_true_2 by done
      |rewrite bool_decide_eq_false_2 by congruence; intros [= <-]; reported].
    destruct (Z.eqb_spec f3 (kernel_w_ op)) as [->|?];
      [rewrite bool_decide_eq_true_2 by done
      |rewrite bool_decide_eq_false_2 by congruence; intros [= <-]; reported].
    cbn [negb]. run_op.
    destruct bdims as [|b0 [|b1 bdims]].
    + intros [= <-]. reported.
    + change (negb (length [b0] =? 1)%nat) with false. cbn match. run_op.
      cbn [lookup list_lookup].
      destruct (Z.eqb_spec b0 f0) as [->|?];
        [rewrite bool_decide_eq_true_2 by done; intros [=]
        |rewrite bool_decide_eq_false_2 by congruence; intros [= <-]; reported].
    + change (negb (length (b0 :: b1 :: bdims) =? 1)%nat) with true.
      intros [= <-].
      destruct (Z.eqb_spec 1 (ndim (mkTensor (b0 :: b1 :: bdims) bd))) as [Hb|Hb];
        [unfold ndim in Hb; cbn [dims length] in Hb; lia|reported].
  - destruct (Z.eqb_spec f1 (kernel_h_ op)) as [->|?];
      [rewrite bool_decide_eq_true_2 by done
      |rewrite bool_decide_eq_false_2 by congruence; intros [= <-]; reported].
    destruct (Z.eqb_spec f2 (kernel_w_ op)) as [->|?];
      [rewrite bool_decide_eq_true_2 by done
      |rewrite bool_decide_eq_false_2 by congruence; intros [= <-]; reported].
    destruct (Z.eqb_spec f3 x3) as [->|?];
      [rewrite bool_decide_eq_true_2 by done
      |rewrite bool_decide_eq_false_2 by congruence; intros [= <-]; reported].
    cbn [negb]. run_op.
    destruct bdims as [|b0 [|b1 bdims]].
    + intros [= <-]. reported.
    + change (negb (length [b0] =? 1)%nat) with false. cbn match. run_op.
      cbn [lookup list_lookup].
      destruct (Z.eqb_spec b0 f0) as [->|?];
        [rewrite bool_decide_eq_true_2 by done; intros [=]
        |rewrite bool_decide_eq_false_2 by congruence; intros [= <-]; reported].
    + change (negb (length (b0 :: b1 :: bdims) =? 1)%nat) with true.
      intros [= <-].
      destruct (Z.eqb_spec 1 (ndim (mkTensor (b0 :: b1 :: bdims) bd))) as [Hb|Hb];
        [unfold ndim in Hb; cbn [dims length] in Hb; lia|reported].
Qed.

End CheckOrder.

Section Padding.
Context {T : Type} {ScalarT : Scalar T}.

(** The last window of an axis ends within the padded extent. *)
Lemma window_within_extent (extent kernel stride dilation y i : Z) :
  0 < stride → 0 ≤ dilation →
  0 ≤ y < output_dim extent kernel stride dilation 0 0 → 0 ≤ i < kernel →
  0 ≤ y * stride + i * dilation < extent.
Proof.
  intros Hs Hd Hy Hi. unfold output_dim in Hy.
  set (A := extent + 0 + 0 - dilation * (kernel - 1) - 1) in *.
  pose proof (Z.mul_div_le A stride Hs) as Hle.
  assert (y * stride ≤ A) by nia.
  assert (i * dilation ≤ dilation * (kernel - 1)) by nia.
  split; [nia|]. unfold A in *. lia.
Qed.

(** X9.  Zero-fill padding is the convolution, without padding, of the
    image surrounded by a margin of zeros: when the input of a second
    invocation is the input of the first with [pad_t], [pad_b], [pad_l]
    and [pad_r] rows and columns of zeros around it, and the padding of
    its configuration is zero, the two outputs have the same size and
    the same elements. *)
Theorem padding_as_zero_margin (order : StorageOrder) (op : ConvPoolOpBase)
    (ws ws' : Blobs T) (N C H W M : Z) :
  let H' := H + pad_t_ op + pad_b_ op in
  let W' := W + pad_l_ op + pad_r_ op in
  valid_invocation order op ws N C H W M →
  valid_invocation order (without_padding op) ws' N C H' W' M →
  (∀ n h w c, 0 ≤ n < N → 0 ≤ h < H' → 0 ≤ w < W' → 0 ≤ c < C →
     logical_input order ws' C H' W' n h w c
     = sample (logical_input order ws C H W) H W n
         (h - pad_t_ op) (w - pad_l_ op) c) →
  (∀ m i j c, 0 ≤ m < M → 0 ≤ i < kernel_h_ op → 0 ≤ j < kernel_w_ op →
     0 ≤ c < C →
     logical_filter order (without_padding op) ws' C m i j c
     = logical_filter order op ws C m i j c) →
  (∀ m, 0 ≤ m < M → get (data (BIAS ws')) m = get (data (BIAS ws)) m) →
  out_h (without_padding op) H' = out_h op H
  ∧ out_w (without_padding op) W' = out_w op W
  ∧ ∃ out out',
      RunOnDevice order op ws = (with_output ws out, inr true)
      ∧ RunOnDevice order (without_padding op) ws' = (with_output ws' out', inr true)
      ∧ ∀ n y x m,
          0 ≤ n < N → 0 ≤ y < out_h op H → 0 ≤ x < out_w op W → 0 ≤ m < M →
          ∃ v,
            load out (output_index order M (out_h op H) (out_w op W) n y x m)
            = Some v
            ∧ load out' (output_index order M (out_h op H) (out_w op W) n y x m)
              = Some v.
Proof.
  intros H' W' Hv Hv' HX HF HB.
  assert (out_h (without_padding op) H' = out_h op H) as Hoh.
  { unfold out_h, output_dim, H'. cbn [without_padding kernel_h_ stride_h_
      dilation_h_ pad_t_ pad_b_]. do 2 f_equal. lia. }
  assert (out_w (without_padding op) W' = out_w op W) as How.
  { unfold out_w, output_dim, W'. cbn [without_padding kernel_w_ stride_w_
      dilation_w_ pad_l_ pad_r_]. do 2 f_equal. lia. }
  split; [done|]. split; [done|].
  destruct (RunOnDevice_elements order op ws N C H W M Hv) as (out & Hrun & Hout).
  destruct (RunOnDevice_elements order _ ws' N C H' W' M Hv')
    as (out' & Hrun' & Hout').
  exists out, out'. split; [done|]. split; [done|].
  intros n y x m Hn Hy Hx Hm. eexists.
  rewrite Hoh, How in Hout'.
  rewrite Hout, Hout' by done. split; [done|].
  rewrite HB by done. do 2 f_equal.
  destruct Hv as [[] _ _ _ _ _ _ _ _ _].
  unfold contraction_value.
  change (kernel_h_ (without_padding op)) with (kernel_h_ op).
  change (kernel_w_ (without_padding op)) with (kernel_w_ op).
  apply sum_below_ext. intros k Hk. cbv zeta.
  destruct (unflat2 k (kernel_h_ op) (kernel_w_ op) C) as (Hi & Hj & Hc & _);
    [done|lia|lia|].
  set (i := k / C / kernel_w_ op) in *. set (j := k / C mod kernel_w_ op) in *.
  set (c := k mod C) in *.
  f_equal; [|by apply HF].
  assert (0 ≤ y * stride_h_ op + i * dilation_h_ op < H') as Hh.
  { apply (window_within_extent H' (kernel_h_ op)); [lia|lia| |done].
    rewrite <- Hoh in Hy. exact Hy. }
  assert (0 ≤ x * stride_w_ op + j * dilation_w_ op < W') as Hw.
  { apply (window_within_extent W' (kernel_w_ op)); [lia|lia| |done].
    rewrite <- How in Hx. exact Hx. }
  assert (window_h (without_padding op) y i
          = y * stride_h_ op + i * dilation_h_ op) as Eh
    by (unfold window_h; cbn [without_padding stride_h_ pad_t_ dilation_h_]; lia).
  assert (window_w (without_padding op) x j
          = x * stride_w_ op + j * dilation_w_ op) as Ew
    by (unfold window_w; cbn [without_padding stride_w_ pad_l_ dilation_w_]; lia).
  rewrite Eh, Ew.
  unfold sample at 1.
  destruct (Z.leb_spec 0 (y * stride_h_ op + i * dilation_h_ op)),
    (Z.ltb_spec (y * stride_h_ op + i * dilation_h_ op) H'),
    (Z.leb_spec 0 (x * stride_w_ op + j * dilation_w_ op)),
    (Z.ltb_spec (x * stride_w_ op + j * dilation_w_ op) W'); try lia.
  cbn [andb]. rewrite HX by done. f_equal.
  - unfold window_h. lia.
  - unfold window_w. lia.
Qed.

End Padding.

(** ** The further properties on concrete invocations *)

Lemma pointwise_convolution_witness :
  valid_invocation NHWC op_1x1 blobs_NHWC 1 2 1 2 2
  ∧ out_h op_1x1 1 = 1 ∧ out_w op_1x1 2 = 2
  ∧ ∃ out,
      RunOnDevice NHWC op_1x1 blobs_NHWC = (with_output blobs_NHWC out, inr true)
      ∧ ∀ n h w m,
          0 ≤ n < 1 → 0 ≤ h < 1 → 0 ≤ w < 2 → 0 ≤ m < 2 →
          load out (output_index NHWC 2 1 2 n h w m)
          = Some (add (sum_below 2 (λ c,
                         mul (logical_input NHWC blobs_NHWC 2 1 2 n h w c)
                             (logical_filter NHWC op_1x1 blobs_NHWC 2 m 0 0 c)))
                      (get (data (BIAS blobs_NHWC)) m)).
Proof.
  assert (valid_invocation NHWC op_1x1 blobs_NHWC 1 2 1 2 2) as Hvalid
    by solve_valid.
  split; [exact Hvalid|].
  exact (pointwise_convolution NHWC op_1x1 blobs_NHWC 1 2 1 2 2 Hvalid
           eq_refl eq_refl eq_refl eq_refl eq_refl eq_refl eq_refl eq_refl).
Defined.

Lemma zero_filter_gives_bias_witness :
  valid_invocation NHWC op_3x3 blobs_zero_filter 1 1 3 3 1
  ∧ (∀ index, get (data (FILTER blobs_zero_filter)) index = 0)
  ∧ ∃ out,
      RunOnDevice NHWC op_3x3 blobs_zero_filter
      = (with_output blobs_zero_filter out, inr true)
      ∧ ∀ n y x m,
          0 ≤ n < 1 → 0 ≤ y < out_h op_3x3 3 → 0 ≤ x < out_w op_3x3 3 →
          0 ≤ m < 1 →
          load out (output_index NHWC 1 (out_h op_3x3 3) (out_w op_3x3 3) n y x m)
          = Some (get (data (BIAS blobs_zero_filter)) m).
Proof.
  assert (valid_invocation NHWC op_3x3 blobs_zero_filter 1 1 3 3 1) as Hvalid
    by solve_valid.
  assert (∀ index, get (data (FILTER blobs_zero_filter)) index = 0) as Hzero.
  { intros index. unfold get, load. cbn [blobs_zero_filter FILTER data].
    destruct (0 <=? index); [|reflexivity].
    destruct (Z.to_nat index) as [|[|[|[|[|[|[|[|[|k]]]]]]]]]; reflexivity. }
  split; [exact Hvalid|]. split; [exact Hzero|].
  exact (zero_filter_gives_bias NHWC op_3x3 blobs_zero_filter 1 1 3 3 1
           Z.mul_0_r Hvalid Hzero).
Defined.

Lemma no_output_channel_divides_by_zero_witness :
  dims (FILTER blobs_no_channel) = filter_shape NHWC op_3x3 0 1
  ∧ Tensor_wf (INPUT blobs_no_channel)
  ∧ RunOnDevice NHWC op_3x3 blobs_no_channel = (blobs_no_channel, inl DivideByZero).
Proof.
  assert (Tensor_wf (INPUT blobs_no_channel)) as Hwf
    by (split; [repeat constructor; lia | reflexivity]).
  split; [reflexivity|]. split; [exact Hwf|].
  exact (no_output_channel_divides_by_zero NHWC op_3x3 blobs_no_channel 1 1 3 3
           eq_refl eq_refl eq_refl eq_refl Hwf).
Defined.

Lemma output_overwritten_witness :
  valid_invocation NHWC op_3x3 blobs_3x3 1 1 3 3 1
  ∧ ∃ out,
      RunOnDevice NHWC op_3x3 blobs_3x3 = (with_output blobs_3x3 out, inr true)
      ∧ RunOnDevice NHWC op_3x3 (with_output blobs_3x3 (replicate 9 5))
        = (with_output blobs_3x3 out, inr true)
      ∧ Z.of_nat (length out) = 1 * out_h op_3x3 3 * out_w op_3x3 3 * 1.
Proof.
  assert (valid_invocation NHWC op_3x3 blobs_3x3 1 1 3 3 1) as Hvalid
    by solve_valid.
  split; [exact Hvalid|].
  exact (output_overwritten NHWC op_3x3 blobs_3x3 1 1 3 3 1 (replicate 9 5)
           Hvalid eq_refl).
Defined.

Lemma output_shuffle_inverts_input_shuffle_witness :
  Z.of_nat (length [1; 2; 3; 4; 5; 6; 7; 8; 9; 10; 11; 12]) = 1 * 3 * 2 * 2
  ∧ ∃ X_tensor,
      evalTensor (shuffle [0; 2; 3; 1]%nat
                    (TensorMap [1; 2; 3; 4; 5; 6; 7; 8; 9; 10; 11; 12] [1; 3; 2; 2]))
      = Some X_tensor
      ∧ length X_tensor = length [1; 2; 3; 4; 5; 6; 7; 8; 9; 10; 11; 12]
      ∧ evalTensor (shuffle [0; 3; 1; 2]%nat (TensorMap X_tensor [1; 2; 2; 3]))
        = Some [1; 2; 3; 4; 5; 6; 7; 8; 9; 10; 11; 12].
Proof.
  split; [reflexivity|].
  apply (output_shuffle_inverts_input_shuffle
           [1; 2; 3; 4; 5; 6; 7; 8; 9; 10; 11; 12] 1 3 2 2); [reflexivity|lia..].
Defined.

Lemma output_element_footprint_witness :
  valid_invocation NHWC op_3x3 blobs_3x3 1 1 3 3 1
  ∧ valid_invocation NHWC op_3x3 blobs_3x3_far 1 1 3 3 1
  ∧ data (INPUT blobs_3x3) ≠ data (INPUT blobs_3x3_far)
  ∧ ∃ out1 out2 v,
      RunOnDevice NHWC op_3x3 blobs_3x3 = (with_output blobs_3x3 out1, inr true)
      ∧ RunOnDevice NHWC op_3x3 blobs_3x3_far
        = (with_output blobs_3x3_far out2, inr true)
      ∧ load out1 (output_index NHWC 1 (out_h op_3x3 3) (out_w op_3x3 3) 0 0 0 0)
        = Some v
      ∧ load out2 (output_index NHWC 1 (out_h op_3x3 3) (out_w op_3x3 3) 0 0 0 0)
        = Some v.
Proof.
  assert (valid_invocation NHWC op_3x3 blobs_3x3 1 1 3 3 1) as Hvalid1
    by solve_valid.
  assert (valid_invocation NHWC op_3x3 blobs_3x3_far 1 1 3 3 1) as Hvalid2
    by solve_valid.
  split; [exact Hvalid1|]. split; [exact Hvalid2|].
  split; [cbn; intros [=]|].
  apply (output_element_footprint NHWC op_3x3 blobs_3x3 blobs_3x3_far
           1 1 3 3 1 0 0 0 0 Hvalid1 Hvalid2).
  - lia.
  - vm_compute. split; [intros [=] | reflexivity].
  - vm_compute. split; [intros [=] | reflexivity].
  - lia.
  - intros i j c Hi Hj Hc Hh Hw.
    unfold window_h, window_w in *. cbn in Hi, Hj, Hh, Hw.
    assert (i = 1 ∨ i = 2) as [-> | ->] by lia;
      (assert (j = 1 ∨ j = 2) as [-> | ->] by lia);
      (assert (c = 0) as -> by lia); reflexivity.
  - reflexivity.
  - reflexivity.
Defined.

Lemma reshapes_keep_size_witness :
  valid_invocation NHWC op_3x3 blobs_3x3 1 1 3 3 1
  ∧ numel (dimensions (image_patches op_3x3
             (TensorMap (data (INPUT blobs_3x3)) [1; 3; 3; 1])))
    = numel [Tensor_size (OUTPUT blobs_3x3) / 1; kernel_h_ op_3x3 * kernel_w_ op_3x3 * 1]
  ∧ numel [Tensor_size (OUTPUT blobs_3x3) / 1; 1] = Tensor_size (OUTPUT blobs_3x3)
  ∧ Tensor_size (OUTPUT blobs_3x3) / 1 = 1 * out_h op_3x3 3 * out_w op_3x3 3.
Proof.
  assert (valid_invocation NHWC op_3x3 blobs_3x3 1 1 3 3 1) as Hvalid
    by solve_valid.
  split; [exact Hvalid|].
  exact (reshapes_keep_size NHWC op_3x3 blobs_3x3 1 1 3 3 1
           (data (INPUT blobs_3x3)) Hvalid).
Defined.

Lemma first_failed_check_is_reported_witness :
  first_failed_check NCHW op_3x3 blobs_two_mismatches = Some FilterChannels
  ∧ first_failed_check NHWC op_3x3 blobs_two_mismatches = Some FilterKernelH
  ∧ RunOnDevice NCHW op_3x3 blobs_two_mismatches
    = (blobs_two_mismatches, inl (InvalidShape FilterChannels))
  ∧ RunOnDevice NHWC op_3x3 blobs_two_mismatches
    = (blobs_two_mismatches, inl (InvalidShape FilterKernelH)).
Proof.
  split; [reflexivity|]. split; [reflexivity|]. split.
  - exact (first_failed_check_is_reported NCHW op_3x3 blobs_two_mismatches
             FilterChannels eq_refl).
  - exact (first_failed_check_is_reported NHWC op_3x3 blobs_two_mismatches
             FilterKernelH eq_refl).
Defined.

Lemma padding_as_zero_margin_witness :
  valid_invocation NHWC op_3x3 blobs_3x3 1 1 3 3 1
  ∧ valid_invocation NHWC (without_padding op_3x3) blobs_prepadded 1 1 5 5 1
  ∧ out_h (without_padding op_3x3) 5 = out_h op_3x3 3
  ∧ out_w (without_padding op_3x3) 5 = out_w op_3x3 3
  ∧ ∃ out out',
      RunOnDevice NHWC op_3x3 blobs_3x3 = (with_output blobs_3x3 out, inr true)
      ∧ RunOnDevice NHWC (without_padding op_3x3) blobs_prepadded
        = (with_output blobs_prepadded out', inr true)
      ∧ ∀ n y x m,
          0 ≤ n < 1 → 0 ≤ y < out_h op_3x3 3 → 0 ≤ x < out_w op_3x3 3 →
          0 ≤ m < 1 →
          ∃ v,
            load out (output_index NHWC 1 (out_h op_3x3 3) (out_w op_3x3 3) n y x m)
            = Some v
            ∧ load out' (output_index NHWC 1 (out_h op_3x3 3) (out_w op_3x3 3) n y x m)
              = Some v.
Proof.
  assert (valid_invocation NHWC op_3x3 blobs_3x3 1 1 3 3 1) as Hvalid
    by solve_valid.
  assert (valid_invocation NHWC (without_padding op_3x3) blobs_prepadded 1 1 5 5 1)
    as Hvalid' by solve_valid.
  split; [exact Hvalid|]. split; [exact Hvalid'|].
  apply (padding_as_zero_margin NHWC op_3x3 blobs_3x3 blobs_prepadded 1 1 3 3 1
           Hvalid Hvalid').
  - intros n h w c Hn Hh Hw Hc. cbn in Hh, Hw.
    assert (n = 0) as -> by lia. assert (c = 0) as -> by lia.
    assert (h = 0 ∨ h = 1 ∨ h = 2 ∨ h = 3 ∨ h = 4) as [-> | [-> | [-> | [-> | ->]]]]
      by lia;
      (assert (w = 0 ∨ w = 1 ∨ w = 2 ∨ w = 3 ∨ w = 4)
         as [-> | [-> | [-> | [-> | ->]]]] by lia); reflexivity.
  - reflexivity.
  - reflexivity.
Defined.

Section PassedChecks.
Context {T : Type} {ScalarT : Scalar T}.

Ltac no_shape_failure :=
  unfold SetOutputSize, divide, store;
  repeat (simplify_eq; run_op; try (intros [=]; fail); case_match);
  simplify_eq.

Ltac passed a b :=
  destruct (Z.eqb_spec a b) as [->|?];
    [rewrite bool_decide_eq_true_2 by done
    |rewrite bool_decide_eq_false_2 by congruence; intros [=]].

(** X10.  Once every shape check has passed, no later step reports a
    shape failure: the calls of [dim32] that follow the checks are all
    within the ranks that the checks have established, so whatever a
    call whose shapes pass the checks fails with, it is not
    [InvalidShape]. *)
Theorem passed_checks_raise_no_shape_failure (order : StorageOrder)
    (op : ConvPoolOpBase) (ws ws' : Blobs T) (check : ShapeCheck) :
  first_failed_check order op ws = None →
  RunOnDevice order op ws ≠ (ws', inl (InvalidShape check)).
Proof.
  destruct ws as [[xdims xd] [fdims fd] [bdims bd] [ydims yd]].
  unfold first_failed_check. cbn [INPUT FILTER BIAS dims].
  destruct xdims as [|x0 [|x1 [|x2 [|x3 rest]]]]; try (intros [=]; fail).
  change (length (x0 :: x1 :: x2 :: x3 :: rest) <? 4)%nat with false.
  cbn match.
  destruct fdims as [|f0 [|f1 [|f2 [|f3 [|f4 fdims]]]]]; try (intros [=]; fail).
  change (negb (length [f0; f1; f2; f3] =? 4)%nat) with false.
  cbn match. cbn [lookup list_lookup].
  destruct order; cbn [RunOnDevice];
    unfold RunOnDeviceWithOrderNCHW, RunOnDeviceWithOrderNHWC; run_op.
  - passed f1 x1. passed f2 (kernel_h_ op). passed f3 (kernel_w_ op).
    cbn [negb]. run_op.
    destruct bdims as [|b0 [|b1 bdims]]; try (intros [=]; fail).
    change (negb (length [b0] =? 1)%nat) with false. cbn match. run_op.
    cbn [lookup list_lookup].
    passed b0 f0. intros _. no_shape_failure.
  - passed f1 (kernel_h_ op). passed f2 (kernel_w_ op). passed f3 x3.
    cbn [negb]. run_op.
    destruct bdims as [|b0 [|b1 bdims]]; try (intros [=]; fail).
    change (negb (length [b0] =? 1)%nat) with false. cbn match. run_op.
    cbn [lookup list_lookup].
    passed b0 f0. intros _. no_shape_failure.
Qed.

End PassedChecks.

Lemma passed_checks_raise_no_shape_failure_witness :
  first_failed_check NHWC op_3x3 blobs_bad_output = None
  ∧ RunOnDevice NHWC op_3x3 blobs_bad_output
    = (blobs_bad_output, inl InconsistentOutputSize)
  ∧ RunOnDevice NHWC op_3x3 blobs_bad_output
    ≠ (blobs_bad_output, inl (InvalidShape InputRank)).
Proof.
  split; [reflexivity|]. split; [reflexivity|].
  exact (passed_checks_raise_no_shape_failure NHWC op_3x3 blobs_bad_output
           blobs_bad_output InputRank eq_refl).
Defined.
